(** * The plugin manager of sublinkPro-plugins, embedded in Rocq

    Sources: [interfaces.go] (the [Plugin] interface and [PluginInfo]),
    [storage.go] (the [PluginStorage] interface and [DefaultStorage]) and
    [manager.go] (the [Manager] and its methods).

    The manager is stateful Go code that talks to three collaborators: the
    loaded plugin instances, the storage back end and the file system.  It is
    embedded as functions in a state monad over a [World] that holds

    - the [PluginInfo] objects the manager allocated, addressed by pointer,
    - the map objects ([map[string]*PluginInfo] is a reference type in Go),
    - the fields of the [Manager] struct,
    - the history of calls made to the collaborators, newest first, and the
      lines written to the log.

    The collaborators are an environment [Env]: what [Init], [Close],
    [GetPlugin] and [SavePlugin] return is a function of the history of calls
    so far, so one and the same call may succeed once and fail later; the
    getters of a plugin ([Name], [DefaultConfig], [InterestedAPIs], ...)
    answer the same every time.  The read/write mutex is not modelled: every
    method body runs under the lock and is one atomic step here.  A goroutine
    that [TriggerEvent] starts is recorded as a call when it is started; what
    the handler does afterwards is outside the manager. *)

From stdpp Require Import gmap strings list fin_maps.
From Stdlib Require Import ZArith.

Set Default Proof Using "Type".
Open Scope string_scope.
Open Scope list_scope.

(** ** Data of [interfaces.go] and [storage.go] *)

(** [type EventType string] with its four constants. *)
Definition EventType : Type := string.
Definition EventAPISuccess : EventType := "api_success".
Definition EventAPIError : EventType := "api_error".
Definition EventAPIBefore : EventType := "api_before".
Definition EventAPIAfter : EventType := "api_after".

(** A Go [interface{}] value as far as a configuration can hold one. *)
#[warnings="-register-all"]
Inductive any : Type :=
| AnyNil
| AnyBool (b : bool)
| AnyNumber (literal : string)
| AnyString (s : string)
| AnyList (items : list any)
| AnyObject (fields : list (string * any)).

(** [map[string]interface{}]; [None] is the nil map.  No method of the manager
    writes into a configuration map, it only passes the reference on, so a
    configuration is a value here. *)
Definition config : Type := option (gmap string any).

(** A loaded plugin instance (a value of interface type [Plugin]). *)
Definition instance : Type := nat.
(** A [*PluginInfo]. *)
Definition ptr : Type := nat.
(** A reference to a [map[string]*PluginInfo] object. *)
Definition mapref : Type := nat.
(** The message of an [error] value a collaborator returned; [None] is nil. *)
Definition errmsg : Type := string.

Record PluginInfo : Type := mkPluginInfo {
  Name : string;
  Version : string;
  Description : string;
  FilePath : string;
  Enabled : bool;
  Config : config;
  Plugin : instance
}.

Record PluginStorageInfo : Type := mkPluginStorageInfo {
  db_Name : string;
  db_Path : string;
  db_Enabled : bool;
  db_Config : string
}.

(** The errors the manager builds with [fmt.Errorf], one constructor per
    format string, and the error it hands through from the directory walk. *)
Inductive error : Type :=
| ErrWalk (e : errmsg)             (* the [err] the walk handed to the callback *)
| ErrMkdir (e : errmsg)            (* "创建插件目录失败: %v" *)
| ErrOpen (e : errmsg)             (* "打开插件失败: %w" *)
| ErrLookup (e : errmsg)           (* "找不到GetPlugin函数: %v" *)
| ErrSignature                     (* "GetPlugin函数签名不正确" *)
| ErrParseConfig (e : errmsg)      (* "解析插件配置失败: %v" *)
| ErrInitSkipped (name : string)   (* "初始化插件 %s 失败，跳过加载" *)
| ErrNotExist (name : string)      (* "插件不存在: %s" *)
| ErrInit (e : errmsg)             (* "初始化插件失败: %v" *)
| ErrSaveState (e : errmsg)        (* "更新插件状态到存储失败: %v" *)
| ErrSaveConfig (e : errmsg).      (* "更新插件配置到存储失败: %v" *)

(** What [plugin.Open], [Lookup] and the type assertion of [loadPlugin]
    lead to for a file. *)
Inductive opened : Type :=
| OpenFailed (e : errmsg)
| LookupFailed (e : errmsg)
| WrongSignature
| Symbol (pluginInstance : instance).

(** ** Calls to the collaborators and log lines *)

Inductive Call : Type :=
| CallGetPlugin (path : string) (db : option PluginStorageInfo) (err : option errmsg)
| CallSavePlugin (name path : string) (enabled : bool) (cfg : config) (err : option errmsg)
| CallDefaultConfig (p : instance)
| CallSetConfig (p : instance) (cfg : config)
| CallInit (p : instance) (err : option errmsg)
| CallClose (p : instance) (err : option errmsg)
| CallGoOnAPIEvent (p : instance) (name : string) (ctx : nat) (event : EventType)
    (path : string) (statusCode : Z) (requestBody responseBody : any).

Inductive LogLine : Type :=
| LogDirCreated (dir : string)                    (* line 50 *)
| LogLoadFailed (path : string) (e : error)       (* line 63 *)
| PrintOpenFailed (e : errmsg)                    (* line 78, [fmt.Printf] *)
| LogNotRegistered (path : string)                (* line 101 *)
| LogInitFailed (name : string) (e : errmsg)      (* line 140 *)
| LogSaveStateFailed (e : errmsg)                 (* lines 145 and 245 *)
| LogSaveInfoFailed (e : errmsg)                  (* line 158 *)
| LogLoaded (name version : string)               (* line 161 *)
| LogCloseFailed (name : string) (e : errmsg)     (* line 237 *)
| LogShutdownCloseFailed (name : string) (e : errmsg).  (* line 336 *)

Definition history : Type := list Call.

(** ** The environment *)

(** [PluginStorage]: the two methods, each reply a function of the calls made
    so far.  [GetPlugin] returns a pointer and an error, and Go lets an
    implementation return both. *)
Record PluginStorage : Type := mkPluginStorage {
  st_GetPlugin : history → string → option PluginStorageInfo * option errmsg;
  st_SavePlugin : history → string → string → bool → config → option errmsg
}.

(** [DefaultStorage]: nothing is ever found, every write succeeds. *)
Definition DefaultStorage : PluginStorage :=
  {| st_GetPlugin := λ _ _, (None, None);
     st_SavePlugin := λ _ _ _ _ _, None |}.

Record Env : Type := mkEnv {
  (* the loader *)
  plugin_Open : string → opened;
  (* the methods of the Plugin interface *)
  p_Name : instance → string;
  p_Version : instance → string;
  p_Description : instance → string;
  p_DefaultConfig : instance → config;
  p_InterestedAPIs : instance → list string;
  p_InterestedEvents : instance → list EventType;
  p_Init : history → instance → option errmsg;
  p_Close : history → instance → option errmsg;
  (* the package variable [storage] *)
  storage : PluginStorage;
  (* [json.Unmarshal] into a nil [map[string]interface{}] *)
  json_Unmarshal : string → option errmsg * config;
  (* the file system *)
  os_Stat_IsNotExist : string → bool;
  os_MkdirAll : string → option errmsg;
  filepath_Walk : string → list (string * option errmsg)
}.

(** ** The world *)

Record World : Type := mkWorld {
  infos : list PluginInfo;
  maps : list (gmap string ptr);
  m_plugins : mapref;
  m_pluginDir : string;
  calls : history;
  logs : list LogLine
}.

(** [GetManager]: the manager as [once.Do] builds it. *)
Definition GetManager : World :=
  {| infos := []; maps := [∅]; m_plugins := 0; m_pluginDir := "./plugins";
     calls := []; logs := [] |}.

(** The registry as a reader sees it; reading a nil map finds nothing. *)
Definition registry (w : World) : gmap string ptr :=
  default ∅ (maps w !! m_plugins w).

(** ** The monad: state, and [None] for a run-time panic *)

Definition M (A : Type) : Type := World → option (A * World).

Definition ret {A} (a : A) : M A := λ w, Some (a, w).
Definition bind {A B} (c : M A) (k : A → M B) : M B :=
  λ w, match c w with
       | Some (a, w') => k a w'
       | None => None
       end.
Definition panic {A} : M A := λ _, None.

Notation "'let!' x ':=' c 'in' k" := (bind c (λ x, k))
  (at level 10, x name, c at level 100, k at level 200).
Notation "c ';;' k" := (bind c (λ _, k))
  (at level 100, k at level 200, right associativity).

Definition emit (c : Call) : M unit :=
  λ w, Some (tt, {| infos := infos w; maps := maps w; m_plugins := m_plugins w;
                    m_pluginDir := m_pluginDir w; calls := c :: calls w;
                    logs := logs w |}).

Definition log_Printf (l : LogLine) : M unit :=
  λ w, Some (tt, {| infos := infos w; maps := maps w; m_plugins := m_plugins w;
                    m_pluginDir := m_pluginDir w; calls := calls w;
                    logs := l :: logs w |}).

Definition past : M history := λ w, Some (calls w, w).

(** [&PluginInfo{...}] *)
Definition new_PluginInfo (info : PluginInfo) : M ptr :=
  λ w, Some (length (infos w),
             {| infos := infos w ++ [info]; maps := maps w;
                m_plugins := m_plugins w; m_pluginDir := m_pluginDir w;
                calls := calls w; logs := logs w |}).

(** Reading through a pointer; a pointer that points nowhere panics. *)
Definition deref (p : ptr) : M PluginInfo :=
  λ w, match infos w !! p with
       | Some info => Some (info, w)
       | None => None
       end.

(** Writing a field through a pointer. *)
Definition assign (p : ptr) (f : PluginInfo → PluginInfo) : M unit :=
  λ w, match infos w !! p with
       | Some info =>
           Some (tt, {| infos := <[p := f info]> (infos w); maps := maps w;
                        m_plugins := m_plugins w; m_pluginDir := m_pluginDir w;
                        calls := calls w; logs := logs w |})
       | None => None
       end.

Definition set_Enabled (b : bool) (i : PluginInfo) : PluginInfo :=
  {| Name := Name i; Version := Version i; Description := Description i;
     FilePath := FilePath i; Enabled := b; Config := Config i;
     Plugin := Plugin i |}.

Definition set_Config (c : config) (i : PluginInfo) : PluginInfo :=
  {| Name := Name i; Version := Version i; Description := Description i;
     FilePath := FilePath i; Enabled := Enabled i; Config := c;
     Plugin := Plugin i |}.

(** [make(map[string]*PluginInfo)] *)
Definition make_map : M mapref :=
  λ w, Some (length (maps w),
             {| infos := infos w; maps := maps w ++ [∅];
                m_plugins := m_plugins w; m_pluginDir := m_pluginDir w;
                calls := calls w; logs := logs w |}).

(** [r[k]]: the pointer and the [exists] flag as one option. *)
Definition map_index (r : mapref) (k : string) : M (option ptr) :=
  λ w, Some (default ∅ (maps w !! r) !! k, w).

(** [r[k] = p]; assignment to an entry of a nil map panics. *)
Definition map_assign (r : mapref) (k : string) (p : ptr) : M unit :=
  λ w, match maps w !! r with
       | Some m =>
           Some (tt, {| infos := infos w; maps := <[r := <[k := p]> m]> (maps w);
                        m_plugins := m_plugins w; m_pluginDir := m_pluginDir w;
                        calls := calls w; logs := logs w |})
       | None => None
       end.

(** [delete(r, k)]; a no-op on a nil map. *)
Definition map_delete (r : mapref) (k : string) : M unit :=
  λ w, match maps w !! r with
       | Some m =>
           Some (tt, {| infos := infos w; maps := <[r := delete k m]> (maps w);
                        m_plugins := m_plugins w; m_pluginDir := m_pluginDir w;
                        calls := calls w; logs := logs w |})
       | None => Some (tt, w)
       end.

(** The entries a [range] over the map visits (in some order). *)
Definition map_range (r : mapref) : M (list (string * ptr)) :=
  λ w, Some (map_to_list (default ∅ (maps w !! r)), w).

Definition get_plugins : M mapref := λ w, Some (m_plugins w, w).
Definition get_pluginDir : M string := λ w, Some (m_pluginDir w, w).
Definition set_plugins (r : mapref) : M unit :=
  λ w, Some (tt, {| infos := infos w; maps := maps w; m_plugins := r;
                    m_pluginDir := m_pluginDir w; calls := calls w;
                    logs := logs w |}).

(** A [for ... range] loop whose body neither breaks nor returns. *)
Fixpoint for_range {A} (body : A → M unit) (l : list A) : M unit :=
  match l with
  | [] => ret tt
  | x :: rest => body x;; for_range body rest
  end.

(** ** Strings *)

(** [strings.HasPrefix(s, prefix)]:
    [len(s) >= len(prefix) && s[:len(prefix)] == prefix]. *)
Definition HasPrefix (s prefix : string) : bool :=
  (String.length prefix <=? String.length s)%nat
  && String.eqb (String.substring 0 (String.length prefix) s) prefix.

(** [strings.HasSuffix(s, suffix)]:
    [len(s) >= len(suffix) && s[len(s)-len(suffix):] == suffix]. *)
Definition HasSuffix (s suffix : string) : bool :=
  (String.length suffix <=? String.length s)%nat
  && String.eqb (String.substring (String.length s - String.length suffix)
                           (String.length suffix) s) suffix.

(** ** The methods of the manager *)

Section Manager.
Context (E : Env).

(** Calls through the [Plugin] interface and the [storage] variable. *)

Definition Plugin_DefaultConfig (p : instance) : M config :=
  emit (CallDefaultConfig p);; ret (p_DefaultConfig E p).

Definition Plugin_SetConfig (p : instance) (c : config) : M unit :=
  emit (CallSetConfig p c).

Definition Plugin_Init (p : instance) : M (option errmsg) :=
  let! h := past in
  let err := p_Init E h p in
  emit (CallInit p err);; ret err.

Definition Plugin_Close (p : instance) : M (option errmsg) :=
  let! h := past in
  let err := p_Close E h p in
  emit (CallClose p err);; ret err.

Definition storage_GetPlugin (path : string)
  : M (option PluginStorageInfo * option errmsg) :=
  let! h := past in
  let r := st_GetPlugin (storage E) h path in
  emit (CallGetPlugin path r.1 r.2);; ret r.

Definition storage_SavePlugin (name path : string) (enabled : bool) (c : config)
  : M (option errmsg) :=
  let! h := past in
  let err := st_SavePlugin (storage E) h name path enabled c in
  emit (CallSavePlugin name path enabled c err);; ret err.

(** [loadPlugin], lines 104-121: the configuration and the enabled flag the
    storage record resolves to, or the error of the early return. *)
Definition resolve_config (pluginInstance : instance)
    (pluginDB : option PluginStorageInfo) : M (error + config * bool) :=
  match pluginDB with
  | Some db =>
      if String.eqb (db_Config db) "" then ret (inr (None, db_Enabled db))
      else
        match json_Unmarshal E (db_Config db) with
        | (Some err, _) => ret (inl (ErrParseConfig err))
        | (None, cfg) => ret (inr (cfg, db_Enabled db))
        end
  | None =>
      let! cfg := Plugin_DefaultConfig pluginInstance in
      ret (inr (cfg, false))
  end.

Definition loadPlugin (pluginPath : string) : M (option error) :=
  match plugin_Open E pluginPath with
  | OpenFailed err =>
      log_Printf (PrintOpenFailed err);; ret (Some (ErrOpen err))
  | LookupFailed err => ret (Some (ErrLookup err))
  | WrongSignature => ret (Some ErrSignature)
  | Symbol pluginInstance =>
      let! got := storage_GetPlugin pluginPath in
      let pluginDB := got.1 in
      (if pluginDB is None then log_Printf (LogNotRegistered pluginPath)
       else ret tt);;
      let! resolved := resolve_config pluginInstance pluginDB in
      match resolved with
      | inl err => ret (Some err)
      | inr (cfg, enable) =>
          Plugin_SetConfig pluginInstance cfg;;
          let! info := new_PluginInfo
            {| Name := p_Name E pluginInstance;
               Version := p_Version E pluginInstance;
               Description := p_Description E pluginInstance;
               FilePath := pluginPath;
               Enabled := enable;
               Config := cfg;
               Plugin := pluginInstance |} in
          let! i := deref info in
          let! failed :=
            (if Enabled i then
               let! err := Plugin_Init pluginInstance in
               match err with
               | Some e =>
                   log_Printf (LogInitFailed (Name i) e);;
                   assign info (set_Enabled false);;
                   let! i' := deref info in
                   let! serr := storage_SavePlugin (Name i') pluginPath false (Config i') in
                   (if serr is Some se then log_Printf (LogSaveStateFailed se)
                    else ret tt);;
                   ret (Some (ErrInitSkipped (Name i')))
               | None => ret None
               end
             else ret None) in
          match failed with
          | Some err => ret (Some err)
          | None =>
              let! i := deref info in
              let! plugins := get_plugins in
              map_assign plugins (Name i) info;;
              let! serr := storage_SavePlugin (Name i) pluginPath (Enabled i) (Config i) in
              (if serr is Some se then log_Printf (LogSaveInfoFailed se)
               else ret tt);;
              log_Printf (LogLoaded (Name i) (Version i));;
              ret None
          end
      end
  end.

(** The callback [LoadPlugins] hands to [filepath.Walk]. *)
Definition walkFn (path : string) (err : option errmsg) : M (option error) :=
  match err with
  | Some e => ret (Some (ErrWalk e))
  | None =>
      (if HasSuffix path ".so" then
         let! lerr := loadPlugin path in
         if lerr is Some le then log_Printf (LogLoadFailed path le) else ret tt
       else ret tt);;
      ret None
  end.

(** [filepath.Walk] over the entries the file system yields: the first error
    the callback returns ends the walk and is its result. *)
Fixpoint Walk (entries : list (string * option errmsg)) : M (option error) :=
  match entries with
  | [] => ret None
  | (path, err) :: rest =>
      let! r := walkFn path err in
      match r with
      | Some e => ret (Some e)
      | None => Walk rest
      end
  end.

Definition LoadPlugins : M (option error) :=
  let! dir := get_pluginDir in
  if os_Stat_IsNotExist E dir then
    match os_MkdirAll E dir with
    | Some err => ret (Some (ErrMkdir err))
    | None => log_Printf (LogDirCreated dir);; ret None
    end
  else Walk (filepath_Walk E dir).

Definition GetPlugin (name : string) : M (option ptr) :=
  let! plugins := get_plugins in
  map_index plugins name.

Definition GetAllPlugins : M mapref :=
  let! result := make_map in
  let! plugins := get_plugins in
  let! entries := map_range plugins in
  for_range (λ kv, map_assign result kv.1 kv.2) entries;;
  ret result.

Definition EnablePlugin (name : string) : M (option error) :=
  let! plugins := get_plugins in
  let! found := map_index plugins name in
  match found with
  | None => ret (Some (ErrNotExist name))
  | Some plugin =>
      let! i := deref plugin in
      if Enabled i then ret None
      else
        let! err := Plugin_Init (Plugin i) in
        match err with
        | Some e => ret (Some (ErrInit e))
        | None =>
            assign plugin (set_Enabled true);;
            let! serr := storage_SavePlugin (Name i) (FilePath i) true (Config i) in
            match serr with
            | Some se =>
                assign plugin (set_Enabled false);;
                let! _ignored := Plugin_Close (Plugin i) in
                ret (Some (ErrSaveState se))
            | None => ret None
            end
        end
  end.

Definition DisablePlugin (name : string) : M (option error) :=
  let! plugins := get_plugins in
  let! found := map_index plugins name in
  match found with
  | None => ret (Some (ErrNotExist name))
  | Some plugin =>
      let! i := deref plugin in
      if negb (Enabled i) then ret None
      else
        let! err := Plugin_Close (Plugin i) in
        (if err is Some e then log_Printf (LogCloseFailed name e) else ret tt);;
        assign plugin (set_Enabled false);;
        let! serr := storage_SavePlugin (Name i) (FilePath i) false (Config i) in
        (if serr is Some se then log_Printf (LogSaveStateFailed se) else ret tt);;
        ret None
  end.

Definition UpdatePluginConfig (name : string) (cfg : config) : M (option error) :=
  let! plugins := get_plugins in
  let! found := map_index plugins name in
  match found with
  | None => ret (Some (ErrNotExist name))
  | Some plugin =>
      let! i := deref plugin in
      let oldConfig := Config i in
      assign plugin (set_Config cfg);;
      Plugin_SetConfig (Plugin i) cfg;;
      let! serr := storage_SavePlugin (Name i) (FilePath i) (Enabled i) cfg in
      match serr with
      | Some se =>
          assign plugin (set_Config oldConfig);;
          Plugin_SetConfig (Plugin i) oldConfig;;
          ret (Some (ErrSaveConfig se))
      | None => ret None
      end
  end.

(** The two inner loops of [TriggerEvent]. *)
Fixpoint eventInterested (interestedEvents : list EventType) (event : EventType)
  : bool :=
  match interestedEvents with
  | [] => false
  | interestedEvent :: rest =>
      if String.eqb interestedEvent event then true
      else eventInterested rest event
  end.

Fixpoint apiInterested (interestedAPIs : list string) (path : string) : bool :=
  match interestedAPIs with
  | [] => false
  | interestedAPI :: rest =>
      if HasPrefix path interestedAPI then true
      else apiInterested rest path
  end.

(** The body of the loop of [TriggerEvent] for one entry of the map; the
    goroutine it starts is recorded as a call. *)
Definition TriggerEvent_body (ctx : nat) (event : EventType) (path : string)
    (statusCode : Z) (requestBody responseBody : any) (kv : string * ptr)
  : M unit :=
  let! pluginInfo := deref kv.2 in
  if negb (Enabled pluginInfo) then ret tt
  else if negb (eventInterested (p_InterestedEvents E (Plugin pluginInfo)) event)
  then ret tt
  else if negb (apiInterested (p_InterestedAPIs E (Plugin pluginInfo)) path)
  then ret tt
  else emit (CallGoOnAPIEvent (Plugin pluginInfo) (Name pluginInfo) ctx event
               path statusCode requestBody responseBody).

Definition TriggerEvent (ctx : nat) (event : EventType) (path : string)
    (statusCode : Z) (requestBody responseBody : any) : M unit :=
  let! plugins := get_plugins in
  let! entries := map_range plugins in
  for_range (TriggerEvent_body ctx event path statusCode requestBody responseBody)
    entries.

Definition Shutdown : M unit :=
  let! plugins := get_plugins in
  let! entries := map_range plugins in
  for_range (λ kv,
    let! pluginInfo := deref kv.2 in
    let! err := Plugin_Close (Plugin pluginInfo) in
    if err is Some e then log_Printf (LogShutdownCloseFailed (Name pluginInfo) e)
    else ret tt) entries;;
  let! fresh_map := make_map in
  set_plugins fresh_map.

End Manager.

(** ** Observations on a history *)

(** How often [Close] was called on an instance. *)
Fixpoint closes (p : instance) (h : history) : nat :=
  match h with
  | [] => 0
  | CallClose q _ :: rest =>
      if decide (q = p) then S (closes p rest) else closes p rest
  | _ :: rest => closes p rest
  end.

(** The configuration the latest [SetConfig] handed to an instance. *)
Fixpoint last_SetConfig (p : instance) (h : history) : option config :=
  match h with
  | [] => None
  | CallSetConfig q c :: rest =>
      if decide (q = p) then Some c else last_SetConfig p rest
  | _ :: rest => last_SetConfig p rest
  end.

Definition is_Init (c : Call) : bool :=
  match c with CallInit _ _ => true | _ => false end.

Definition is_DefaultConfig (c : Call) : bool :=
  match c with CallDefaultConfig _ => true | _ => false end.

Definition is_saved (c : Call) : bool :=
  match c with CallSavePlugin _ _ _ _ None => true | _ => false end.

(** ** A sample environment and sample worlds *)

(** One plugin file, [plugins/audit.so], whose instance is called [audit];
    the storage and the instance answer every call the same way. *)
Definition sample_env (got : option PluginStorageInfo * option errmsg)
    (init save : option errmsg) : Env :=
  {| plugin_Open := λ path,
       if String.eqb path "plugins/audit.so" then Symbol 7
       else OpenFailed "no such file";
     p_Name := λ _, "audit";
     p_Version := λ _, "1.0";
     p_Description := λ _, "request audit";
     p_DefaultConfig := λ _, Some {[ "level" := AnyString "info" ]};
     p_InterestedAPIs := λ _, ["/v1/users"];
     p_InterestedEvents := λ _, [EventAPIBefore];
     p_Init := λ _ _, init;
     p_Close := λ _ _, None;
     storage := {| st_GetPlugin := λ _ _, got;
                   st_SavePlugin := λ _ _ _ _ _, save |};
     json_Unmarshal := λ s,
       if String.eqb s "null" then (None, None)
       else if String.eqb s "{}" then (None, Some ∅)
       else (Some "invalid character", None);
     os_Stat_IsNotExist := λ _, false;
     os_MkdirAll := λ _, None;
     filepath_Walk := λ dir,
       [(dir, None); ("plugins/audit.so", None); ("plugins/README", None)] |}.

Definition sample_info (enabled : bool) : PluginInfo :=
  {| Name := "audit"; Version := "1.0"; Description := "request audit";
     FilePath := "plugins/audit.so"; Enabled := enabled;
     Config := Some {[ "level" := AnyString "info" ]}; Plugin := 7 |}.

(** A manager that holds the one plugin. *)
Definition sample_world (enabled : bool) : World :=
  {| infos := [sample_info enabled]; maps := [{[ "audit" := 0 ]}];
     m_plugins := 0; m_pluginDir := "./plugins"; calls := []; logs := [] |}.

(** ** The vocabulary of the statements *)

(** The record [loadPlugin] builds for an instance. *)
Definition info_of (E : Env) (pluginInstance : instance) (pluginPath : string)
    (enable : bool) (cfg : config) : PluginInfo :=
  {| Name := p_Name E pluginInstance;
     Version := p_Version E pluginInstance;
     Description := p_Description E pluginInstance;
     FilePath := pluginPath;
     Enabled := enable;
     Config := cfg;
     Plugin := pluginInstance |}.

(** [loadPlugin] with a storage record whose configuration string is empty:
    the statement that such a load always succeeds. *)
Definition empty_config_always_loads (E : Env) (w : World) (path : string) : Prop :=
  ∀ pi db gerr,
    plugin_Open E path = Symbol pi →
    st_GetPlugin (storage E) (calls w) path = (Some db, gerr) →
    db_Config db = "" →
    is_Some (maps w !! m_plugins w) →
    ∃ w' p i new,
      loadPlugin E path w = Some (None, w') ∧
      registry w' !! p_Name E pi = Some p ∧
      infos w' !! p = Some i ∧
      Config i = None ∧
      calls w' = new ++ calls w ∧
      In (CallSetConfig pi None) new ∧
      existsb is_DefaultConfig new = false.

(** [loadPlugin] when [GetPlugin] returns an error: the statement that the
    module is then always registered disabled with its default configuration. *)
Definition read_error_as_no_record (E : Env) (w : World) (path : string) : Prop :=
  ∀ pi gerr,
    plugin_Open E path = Symbol pi →
    (st_GetPlugin (storage E) (calls w) path).2 = Some gerr →
    is_Some (maps w !! m_plugins w) →
    ∃ w' p,
      loadPlugin E path w = Some (None, w') ∧
      registry w' !! p_Name E pi = Some p ∧
      infos w' !! p = Some (info_of E pi path false (p_DefaultConfig E pi)).

(** What [TriggerEvent] decides for one record. *)
Definition wants (E : Env) (event : EventType) (path : string) (i : PluginInfo)
  : bool :=
  Enabled i
  && eventInterested (p_InterestedEvents E (Plugin i)) event
  && apiInterested (p_InterestedAPIs E (Plugin i)) path.

(** The goroutine [TriggerEvent] starts for an entry of the map, if any. *)
Definition spawned (E : Env) (w : World) (ctx : nat) (event : EventType)
    (path : string) (statusCode : Z) (requestBody responseBody : any)
    (kv : string * ptr) : option Call :=
  match infos w !! kv.2 with
  | Some i =>
      if wants E event path i
      then Some (CallGoOnAPIEvent (Plugin i) (Name i) ctx event path statusCode
                   requestBody responseBody)
      else None
  | None => None
  end.

Definition with_calls (h : history) (w : World) : World :=
  {| infos := infos w; maps := maps w; m_plugins := m_plugins w;
     m_pluginDir := m_pluginDir w; calls := h; logs := logs w |}.

(** What a caller can do with the map it got: assign to a key, delete a
    key, or write a field of the record a key leads to. *)
Inductive Mutation : Type :=
| MapAssign (k : string) (p : ptr)
| MapDelete (k : string)
| FieldAssign (k : string) (f : PluginInfo → PluginInfo).

Definition mutate (r : mapref) (mu : Mutation) : M unit :=
  match mu with
  | MapAssign k p => map_assign r k p
  | MapDelete k => map_delete r k
  | FieldAssign k f =>
      let! found := map_index r k in
      match found with
      | Some p => assign p f
      | None => panic
      end
  end.

Definition map_only (mu : Mutation) : bool :=
  match mu with
  | FieldAssign _ _ => false
  | _ => true
  end.

(** The state of the registry: its keys, and behind each key the record. *)
Definition view (w : World) : gmap string (option PluginInfo) :=
  (λ p, infos w !! p) <$> registry w.

(** The statement that nothing a caller does to the result shows in the
    registry. *)
Definition GetAllPlugins_is_deep_copy (w : World) : Prop :=
  ∀ mus r w1 w2,
    GetAllPlugins w = Some (r, w1) →
    for_range (mutate r) mus w1 = Some (tt, w2) →
    view w2 = view w.

(** The calls a client of the manager can make. *)
Inductive Request : Type :=
| ReqLoadPlugins
| ReqLoadPlugin (pluginPath : string)
| ReqGetPlugin (name : string)
| ReqGetAllPlugins
| ReqEnablePlugin (name : string)
| ReqDisablePlugin (name : string)
| ReqUpdatePluginConfig (name : string) (cfg : config)
| ReqTriggerEvent (ctx : nat) (event : EventType) (path : string)
    (statusCode : Z) (requestBody responseBody : any)
| ReqShutdown.

Definition serve (E : Env) (req : Request) : M unit :=
  match req with
  | ReqLoadPlugins => LoadPlugins E;; ret tt
  | ReqLoadPlugin pluginPath => loadPlugin E pluginPath;; ret tt
  | ReqGetPlugin name => GetPlugin name;; ret tt
  | ReqGetAllPlugins => GetAllPlugins;; ret tt
  | ReqEnablePlugin name => EnablePlugin E name;; ret tt
  | ReqDisablePlugin name => DisablePlugin E name;; ret tt
  | ReqUpdatePluginConfig name cfg => UpdatePluginConfig E name cfg;; ret tt
  | ReqTriggerEvent ctx event path statusCode requestBody responseBody =>
      TriggerEvent E ctx event path statusCode requestBody responseBody
  | ReqShutdown => Shutdown E
  end.

Definition serve_all (E : Env) (reqs : list Request) : M unit :=
  for_range (serve E) reqs.

(** [Init] succeeded on the instance of the record and a [SavePlugin]
    succeeded after it. *)
Definition init_then_saved (h : history) (i : PluginInfo) : Prop :=
  ∃ later earlier,
    h = later ++ CallInit (Plugin i) None :: earlier ∧
    existsb is_saved later = true.

(** The statement that every enabled record of the registry has both. *)
Definition enabled_means_saved (w : World) : Prop :=
  ∀ name p i,
    registry w !! name = Some p → infos w !! p = Some i → Enabled i = true →
    init_then_saved (calls w) i.

(** [Init] succeeded on the instance of the record, and the storage agrees
    that the plugin is enabled: either a [SavePlugin] of the enabled record
    succeeded after that [Init] (the way of [EnablePlugin]), or [GetPlugin]
    had returned an enabled record for the file before it (the way of
    [loadPlugin]). *)
Definition enabled_backed (h : history) (i : PluginInfo) : Prop :=
  ∃ later earlier,
    h = later ++ CallInit (Plugin i) None :: earlier ∧
    ((∃ cfg, In (CallSavePlugin (Name i) (FilePath i) true cfg None) later) ∨
     (∃ db gerr, In (CallGetPlugin (FilePath i) (Some db) gerr) earlier ∧
                 db_Enabled db = true)).

(** The invariant of the manager: it holds a map, every pointer in the map
    points to a record, and every enabled record is backed. *)
Definition backed (h : history) (i : PluginInfo) : Prop :=
  Enabled i = true → enabled_backed h i.

Record Inv (w : World) : Prop := mkInv {
  inv_map : m_plugins w < length (maps w);
  inv_ptr : ∀ k p, registry w !! k = Some p → p < length (infos w);
  inv_backed : Forall (backed (calls w)) (infos w)
}.

(** A method keeps the invariant and does not panic. *)
Definition keeps {A} (c : M A) : Prop :=
  ∀ w, Inv w → ∃ a w', c w = Some (a, w') ∧ Inv w'.

(** ** More vocabulary: counting calls, evolution of the world *)

(** How often [Init] was called on an instance. *)
Fixpoint inits (p : instance) (h : history) : nat :=
  match h with
  | [] => 0
  | CallInit q _ :: rest =>
      if decide (q = p) then S (inits p rest) else inits p rest
  | _ :: rest => inits p rest
  end.

Definition is_Close (c : Call) : bool :=
  match c with CallClose _ _ => true | _ => false end.

Definition is_SavePlugin (c : Call) : bool :=
  match c with CallSavePlugin _ _ _ _ _ => true | _ => false end.

(** The sample environment with another file system: whether the directory
    is missing, what [MkdirAll] returns, and what the walk yields. *)
Definition sample_env_fs (missing : bool) (mkdir : option errmsg)
    (entries : list (string * option errmsg)) : Env :=
  let E := sample_env (None, None) None None in
  {| plugin_Open := plugin_Open E;
     p_Name := p_Name E;
     p_Version := p_Version E;
     p_Description := p_Description E;
     p_DefaultConfig := p_DefaultConfig E;
     p_InterestedAPIs := p_InterestedAPIs E;
     p_InterestedEvents := p_InterestedEvents E;
     p_Init := p_Init E;
     p_Close := p_Close E;
     storage := storage E;
     json_Unmarshal := json_Unmarshal E;
     os_Stat_IsNotExist := λ _, missing;
     os_MkdirAll := λ _, mkdir;
     filepath_Walk := λ _, entries |}.

(** The configuration [loadPlugin] takes from a storage record (lines
    108-114): nil for an empty string, else what [json.Unmarshal] makes of
    it. *)
Definition config_of_record (E : Env) (db : PluginStorageInfo) (cfg : config)
  : Prop :=
  (db_Config db = "" ∧ cfg = None) ∨
  (db_Config db ≠ "" ∧ json_Unmarshal E (db_Config db) = (None, cfg)).

(** Two states of a record that differ at most in [Enabled] and [Config]. *)
Definition same_identity (i i' : PluginInfo) : Prop :=
  Name i' = Name i ∧ Version i' = Version i ∧ Description i' = Description i ∧
  FilePath i' = FilePath i ∧ Plugin i' = Plugin i.

(** Every record of [l] is still there in [l'], with the same identity. *)
Definition grows (l l' : list PluginInfo) : Prop :=
  ∀ p i, l !! p = Some i → ∃ i', l' !! p = Some i' ∧ same_identity i i'.

(** A map object that is not the manager's own is not written, and does
    not become the manager's own. *)
Definition frozen (w w' : World) : Prop :=
  ∀ r m, maps w !! r = Some m → r ≠ m_plugins w →
         maps w' !! r = Some m ∧ r ≠ m_plugins w'.

(** What every method does to the world at most: the history of calls and
    the log only get longer, the directory stays, records are neither
    freed nor given another identity, and only the manager's own map is
    written. *)
Record evolves (w w' : World) : Prop := mkEvolves {
  ev_calls : calls w `suffix_of` calls w';
  ev_logs : logs w `suffix_of` logs w';
  ev_dir : m_pluginDir w' = m_pluginDir w;
  ev_infos : grows (infos w) (infos w');
  ev_maps : frozen w w'
}.

(** What one method does to the registry at most: nothing, empty it, or
    bind the name of one newly allocated record to that record. *)
Definition registry_effect (w w' : World) : Prop :=
  registry w' = registry w ∨
  registry w' = ∅ ∨
  ∃ i, infos w' = infos w ++ [i] ∧
       registry w' = <[Name i := length (infos w)]> (registry w).

(** Every key of the registry is the name of the record it leads to. *)
Definition named (w : World) : Prop :=
  ∀ k p i, registry w !! k = Some p → infos w !! p = Some i → Name i = k.

(** A method keeps [Inv] and [named] and does not panic. *)
Definition keeps_named {A} (c : M A) : Prop :=
  ∀ w, Inv w → named w → ∃ a w', c w = Some (a, w') ∧ Inv w' ∧ named w'.

(** ** Running the methods symbolically *)

Ltac unfold_prims :=
  unfold bind, ret, past, emit, log_Printf, get_plugins, get_pluginDir,
    set_plugins, map_index, map_assign, map_delete, map_range, make_map, deref,
    assign, new_PluginInfo, Plugin_Init, Plugin_Close, Plugin_SetConfig,
    Plugin_DefaultConfig, storage_GetPlugin, storage_SavePlugin in *.

Ltac insert_lookup :=
  rewrite list_lookup_insert_eq
    by (rewrite ?length_insert; eapply lookup_lt_Some; eassumption).

Lemma set_Enabled_same i : set_Enabled (Enabled i) i = i.
Proof. by destruct i. Qed.

Lemma set_Enabled_twice b c i : set_Enabled b (set_Enabled c i) = set_Enabled b i.
Proof. done. Qed.

Lemma set_Config_back c i : set_Config (Config i) (set_Config c i) = i.
Proof. by destruct i. Qed.

(** ** Enabling, disabling and reconfiguring *)

(** C3: [EnablePlugin] on a registered, disabled plugin whose [Init] succeeds
    and whose [SavePlugin] fails with [e]: the record is disabled afterwards,
    [Close] was called exactly once on the instance (after the failed write),
    and the error returned is the one built from [e], whatever [Close]
    returned. *)
Theorem EnablePlugin_save_failure (E : Env) (w : World) (name : string)
    (p : ptr) (i : PluginInfo) (e : errmsg) :
  registry w !! name = Some p →
  infos w !! p = Some i →
  Enabled i = false →
  p_Init E (calls w) (Plugin i) = None →
  st_SavePlugin (storage E) (CallInit (Plugin i) None :: calls w)
    (Name i) (FilePath i) true (Config i) = Some e →
  ∃ w' cerr,
    EnablePlugin E name w = Some (Some (ErrSaveState e), w') ∧
    registry w' = registry w ∧
    infos w' !! p = Some i ∧
    calls w' = CallClose (Plugin i) cerr
                 :: CallSavePlugin (Name i) (FilePath i) true (Config i) (Some e)
                 :: CallInit (Plugin i) None :: calls w ∧
    closes (Plugin i) (calls w') = S (closes (Plugin i) (calls w)).
Proof.
  intros Hp Hi Hoff Hinit Hsave. unfold registry in Hp.
  eexists _, _. unfold EnablePlugin. unfold_prims. cbn.
  rewrite Hp, Hi. cbn. rewrite Hoff, Hinit. cbn. rewrite Hi. cbn.
  rewrite Hsave. cbn. insert_lookup. cbn. split; [reflexivity|]. cbn.
  split; [reflexivity|]. split; [|split; [reflexivity|]].
  - insert_lookup. by rewrite set_Enabled_twice, <- Hoff, set_Enabled_same.
  - by rewrite decide_True.
Qed.

Lemma EnablePlugin_save_failure_witness :
  ∃ w' cerr,
    EnablePlugin (sample_env (None, None) None (Some "disk full")) "audit"
      (sample_world false) = Some (Some (ErrSaveState "disk full"), w') ∧
    registry w' = registry (sample_world false) ∧
    infos w' !! 0 = Some (sample_info false) ∧
    calls w' = [CallClose 7 cerr;
                CallSavePlugin "audit" "plugins/audit.so" true
                  (Some {[ "level" := AnyString "info" ]}) (Some "disk full");
                CallInit 7 None] ∧
    closes 7 (calls w') = 1.
Proof.
  apply (EnablePlugin_save_failure
           (sample_env (None, None) None (Some "disk full"))
           (sample_world false) "audit" 0 (sample_info false) "disk full");
    vm_compute; reflexivity.
Defined.

(** C5: [UpdatePluginConfig] on a registered plugin whose [SavePlugin] fails
    with [e]: the record holds the configuration it held before the call, the
    latest [SetConfig] on the instance handed it that same configuration (not
    [cfg]), and the error returned is the one built from [e]. *)
Theorem UpdatePluginConfig_save_failure (E : Env) (w : World) (name : string)
    (cfg : config) (p : ptr) (i : PluginInfo) (e : errmsg) :
  registry w !! name = Some p →
  infos w !! p = Some i →
  st_SavePlugin (storage E) (CallSetConfig (Plugin i) cfg :: calls w)
    (Name i) (FilePath i) (Enabled i) cfg = Some e →
  ∃ w',
    UpdatePluginConfig E name cfg w = Some (Some (ErrSaveConfig e), w') ∧
    registry w' = registry w ∧
    infos w' !! p = Some i ∧
    last_SetConfig (Plugin i) (calls w') = Some (Config i) ∧
    calls w' = CallSetConfig (Plugin i) (Config i)
                 :: CallSavePlugin (Name i) (FilePath i) (Enabled i) cfg (Some e)
                 :: CallSetConfig (Plugin i) cfg :: calls w.
Proof.
  intros Hp Hi Hsave. unfold registry in Hp.
  eexists. unfold UpdatePluginConfig. unfold_prims. cbn.
  rewrite Hp, Hi. cbn. rewrite Hi. cbn. rewrite Hsave. cbn. insert_lookup. cbn.
  split; [reflexivity|]. cbn. split; [reflexivity|].
  split; [|split; [|reflexivity]].
  - insert_lookup. by rewrite set_Config_back.
  - by rewrite decide_True.
Qed.

Lemma UpdatePluginConfig_save_failure_witness :
  ∃ w',
    UpdatePluginConfig (sample_env (None, None) None (Some "disk full")) "audit"
      (Some ∅) (sample_world true) = Some (Some (ErrSaveConfig "disk full"), w') ∧
    registry w' = registry (sample_world true) ∧
    infos w' !! 0 = Some (sample_info true) ∧
    last_SetConfig 7 (calls w') = Some (Some {[ "level" := AnyString "info" ]}) ∧
    calls w' = [CallSetConfig 7 (Some {[ "level" := AnyString "info" ]});
                CallSavePlugin "audit" "plugins/audit.so" true (Some ∅)
                  (Some "disk full");
                CallSetConfig 7 (Some ∅)].
Proof.
  apply (UpdatePluginConfig_save_failure
           (sample_env (None, None) None (Some "disk full"))
           (sample_world true) "audit" (Some ∅) 0 (sample_info true) "disk full");
    vm_compute; reflexivity.
Defined.

(** C8: [DisablePlugin] on a registered, enabled plugin whose [SavePlugin]
    fails with [e] returns nil all the same: the record is disabled, [Close]
    was called on the instance, and [e] went to the log only. *)
Theorem DisablePlugin_save_failure (E : Env) (w : World) (name : string)
    (p : ptr) (i : PluginInfo) (e : errmsg) :
  registry w !! name = Some p →
  infos w !! p = Some i →
  Enabled i = true →
  st_SavePlugin (storage E)
    (CallClose (Plugin i) (p_Close E (calls w) (Plugin i)) :: calls w)
    (Name i) (FilePath i) false (Config i) = Some e →
  ∃ w',
    DisablePlugin E name w = Some (None, w') ∧
    registry w' = registry w ∧
    infos w' !! p = Some (set_Enabled false i) ∧
    calls w' = CallSavePlugin (Name i) (FilePath i) false (Config i) (Some e)
                 :: CallClose (Plugin i) (p_Close E (calls w) (Plugin i))
                 :: calls w ∧
    closes (Plugin i) (calls w') = S (closes (Plugin i) (calls w)) ∧
    head (logs w') = Some (LogSaveStateFailed e).
Proof.
  intros Hp Hi Hon Hsave. unfold registry in Hp.
  destruct (p_Close E (calls w) (Plugin i)) as [ce|] eqn:Hclose;
    eexists; unfold DisablePlugin; unfold_prims; cbn;
    rewrite Hp, Hi; cbn; rewrite Hon; cbn; rewrite Hclose; cbn;
    rewrite Hi; cbn; rewrite Hsave; cbn;
    (split; [reflexivity|]); cbn; (split; [reflexivity|]);
    (split; [by insert_lookup|]); (split; [reflexivity|]);
    (split; [by rewrite decide_True|reflexivity]).
Qed.

Lemma DisablePlugin_save_failure_witness :
  ∃ w',
    DisablePlugin (sample_env (None, None) None (Some "disk full")) "audit"
      (sample_world true) = Some (None, w') ∧
    registry w' = registry (sample_world true) ∧
    infos w' !! 0 = Some (sample_info false) ∧
    calls w' = [CallSavePlugin "audit" "plugins/audit.so" false
                  (Some {[ "level" := AnyString "info" ]}) (Some "disk full");
                CallClose 7 None] ∧
    closes 7 (calls w') = 1 ∧
    head (logs w') = Some (LogSaveStateFailed "disk full").
Proof.
  apply (DisablePlugin_save_failure
           (sample_env (None, None) None (Some "disk full"))
           (sample_world true) "audit" 0 (sample_info true) "disk full");
    vm_compute; reflexivity.
Defined.

(** ** Loading one plugin *)

Lemma lookup_new_info (l : list PluginInfo) (i : PluginInfo) :
  (l ++ [i]) !! length l = Some i.
Proof. by rewrite lookup_app_r, Nat.sub_diag. Qed.

Lemma registry_after_assign (w : World) (reg reg' : gmap string ptr)
    (l : list PluginInfo) (h : history) (lg : list LogLine) :
  maps w !! m_plugins w = Some reg →
  registry {| infos := l; maps := <[m_plugins w := reg']> (maps w);
              m_plugins := m_plugins w; m_pluginDir := m_pluginDir w;
              calls := h; logs := lg |} = reg'.
Proof.
  intros Hmap. unfold registry. cbn.
  by rewrite list_lookup_insert_eq by (eapply lookup_lt_Some; eassumption).
Qed.

(** [loadPlugin] when the storage hands back a nil record, with or without an
    error next to it. *)
Lemma loadPlugin_nil_record (E : Env) (w : World) (path : string)
    (pi : instance) (gerr : option errmsg) (reg : gmap string ptr) :
  plugin_Open E path = Symbol pi →
  st_GetPlugin (storage E) (calls w) path = (None, gerr) →
  maps w !! m_plugins w = Some reg →
  ∃ w' serr,
    loadPlugin E path w = Some (None, w') ∧
    registry w' = <[p_Name E pi := length (infos w)]> reg ∧
    infos w' = infos w ++ [info_of E pi path false (p_DefaultConfig E pi)] ∧
    calls w' = CallSavePlugin (p_Name E pi) path false (p_DefaultConfig E pi) serr
                 :: CallSetConfig pi (p_DefaultConfig E pi)
                 :: CallDefaultConfig pi
                 :: CallGetPlugin path None gerr :: calls w.
Proof.
  intros Hopen Hget Hmap.
  destruct (st_SavePlugin (storage E)
              (CallSetConfig pi (p_DefaultConfig E pi) :: CallDefaultConfig pi
                 :: CallGetPlugin path None gerr :: calls w)
              (p_Name E pi) path false (p_DefaultConfig E pi)) as [se|] eqn:Hsave;
    eexists _, _; unfold loadPlugin, resolve_config; rewrite Hopen;
    unfold_prims; cbn; rewrite Hget; cbn;
    rewrite lookup_new_info; cbn; rewrite lookup_new_info; cbn;
    rewrite Hmap; cbn; rewrite Hsave; cbn;
    (split; [reflexivity|]);
    (split; [by apply (registry_after_assign w reg)|]); cbn; done.
Qed.

(** C7: a module for which the storage has no record (the pointer
    [GetPlugin] returns is nil) is registered under its name with
    [Enabled = false] and [Config = DefaultConfig()]; that configuration went
    to the instance through [SetConfig], and [Init] was not called. *)
Theorem loadPlugin_no_prior_record (E : Env) (w : World) (path : string)
    (pi : instance) (reg : gmap string ptr) :
  plugin_Open E path = Symbol pi →
  (st_GetPlugin (storage E) (calls w) path).1 = None →
  maps w !! m_plugins w = Some reg →
  ∃ w' p new,
    loadPlugin E path w = Some (None, w') ∧
    registry w' !! p_Name E pi = Some p ∧
    infos w' !! p = Some (info_of E pi path false (p_DefaultConfig E pi)) ∧
    calls w' = new ++ calls w ∧
    In (CallSetConfig pi (p_DefaultConfig E pi)) new ∧
    last_SetConfig pi (calls w') = Some (p_DefaultConfig E pi) ∧
    existsb is_Init new = false.
Proof.
  intros Hopen Hget Hmap.
  destruct (st_GetPlugin (storage E) (calls w) path) as [db gerr] eqn:Hg.
  cbn in Hget. subst db.
  destruct (loadPlugin_nil_record E w path pi gerr reg Hopen Hg Hmap)
    as (w' & serr & Hrun & Hreg & Hinfos & Hcalls).
  exists w', (length (infos w)),
    [CallSavePlugin (p_Name E pi) path false (p_DefaultConfig E pi) serr;
     CallSetConfig pi (p_DefaultConfig E pi); CallDefaultConfig pi;
     CallGetPlugin path None gerr].
  split; [exact Hrun|]. rewrite Hreg, Hinfos, Hcalls.
  split; [apply lookup_insert_eq|]. split; [apply lookup_new_info|].
  split; [reflexivity|]. split; [cbn; tauto|].
  split; [|reflexivity]. cbn. by rewrite decide_True.
Qed.

Lemma loadPlugin_no_prior_record_witness :
  ∃ w' p new,
    loadPlugin (sample_env (None, None) None None) "plugins/audit.so" GetManager
      = Some (None, w') ∧
    registry w' !! "audit" = Some p ∧
    infos w' !! p = Some (sample_info false) ∧
    calls w' = new ++ [] ∧
    In (CallSetConfig 7 (Some {[ "level" := AnyString "info" ]})) new ∧
    last_SetConfig 7 (calls w') = Some (Some {[ "level" := AnyString "info" ]}) ∧
    existsb is_Init new = false.
Proof.
  apply (loadPlugin_no_prior_record (sample_env (None, None) None None)
           GetManager "plugins/audit.so" 7 ∅); vm_compute; reflexivity.
Defined.



(** The record says enabled, its configuration string is empty, and [Init]
    fails: [loadPlugin] returns the error of line 149. *)
Lemma empty_config_init_failure :
  ¬ empty_config_always_loads
      (sample_env (Some (mkPluginStorageInfo "audit" "plugins/audit.so" true ""), None)
                  (Some "no upstream") None)
      GetManager "plugins/audit.so".
Proof.
  intros H.
  destruct (H 7 (mkPluginStorageInfo "audit" "plugins/audit.so" true "") None
              eq_refl eq_refl eq_refl (mk_is_Some _ _ eq_refl))
    as (w' & p & i & new & Hrun & _).
  vm_compute in Hrun. discriminate Hrun.
Qed.

(** C9 (amended): a module whose storage record carries an empty
    configuration string gets the nil configuration through [SetConfig], and
    [DefaultConfig] is not called; when moreover the record is disabled or
    [Init] succeeds, [loadPlugin] succeeds and registers the record with the
    nil configuration. *)
Theorem loadPlugin_empty_config (E : Env) (w : World) (path : string)
    (pi : instance) (db : PluginStorageInfo) (gerr : option errmsg)
    (reg : gmap string ptr) :
  plugin_Open E path = Symbol pi →
  st_GetPlugin (storage E) (calls w) path = (Some db, gerr) →
  db_Config db = "" →
  maps w !! m_plugins w = Some reg →
  ∃ r w' new,
    loadPlugin E path w = Some (r, w') ∧
    calls w' = new ++ calls w ∧
    In (CallSetConfig pi None) new ∧
    existsb is_DefaultConfig new = false ∧
    ((db_Enabled db = true →
      p_Init E (CallSetConfig pi None :: CallGetPlugin path (Some db) gerr :: calls w)
        pi = None) →
     r = None ∧
     registry w' !! p_Name E pi = Some (length (infos w)) ∧
     infos w' !! length (infos w) = Some (info_of E pi path (db_Enabled db) None)).
Proof.
  intros Hopen Hget Hempty Hmap.
  pose proof (registry_after_assign w reg) as Hreg.
  destruct (db_Enabled db) eqn:Hen;
    [destruct (p_Init E (CallSetConfig pi None
                 :: CallGetPlugin path (Some db) gerr :: calls w) pi)
       as [ie|] eqn:Hinit|].
  - (* enabled, Init fails *)
    destruct (st_SavePlugin (storage E)
                (CallInit pi (Some ie) :: CallSetConfig pi None
                   :: CallGetPlugin path (Some db) gerr :: calls w)
                (p_Name E pi) path false None) as [se|] eqn:Hsave;
      eexists _, _,
        [CallSavePlugin (p_Name E pi) path false None _; CallInit pi (Some ie);
         CallSetConfig pi None; CallGetPlugin path (Some db) gerr];
      unfold loadPlugin, resolve_config; rewrite Hopen;
      unfold_prims; cbn; rewrite Hget; cbn; rewrite Hempty; cbn;
      rewrite lookup_new_info; cbn; rewrite Hen; cbn; rewrite Hinit; cbn;
      rewrite lookup_new_info; cbn;
      rewrite list_lookup_insert_eq by (rewrite length_app; cbn; lia); cbn;
      rewrite Hsave; cbn;
      (split; [reflexivity|]); cbn; (split; [reflexivity|]);
      (split; [tauto|]); (split; [reflexivity|]);
      intros Hok; specialize (Hok eq_refl); discriminate Hok.
  - (* enabled, Init succeeds *)
    destruct (st_SavePlugin (storage E)
                (CallInit pi None :: CallSetConfig pi None
                   :: CallGetPlugin path (Some db) gerr :: calls w)
                (p_Name E pi) path true None) as [se|] eqn:Hsave;
      eexists _, _,
        [CallSavePlugin (p_Name E pi) path true None _; CallInit pi None;
         CallSetConfig pi None; CallGetPlugin path (Some db) gerr];
      unfold loadPlugin, resolve_config; rewrite Hopen;
      unfold_prims; cbn; rewrite Hget; cbn; rewrite Hempty; cbn;
      rewrite lookup_new_info; cbn; rewrite Hen; cbn; rewrite Hinit; cbn;
      rewrite lookup_new_info; cbn; rewrite Hmap; cbn; rewrite Hsave; cbn;
      (split; [reflexivity|]); cbn; (split; [reflexivity|]);
      (split; [tauto|]); (split; [reflexivity|]);
      intros _; (split; [reflexivity|]);
      (rewrite Hreg by exact Hmap); rewrite lookup_insert_eq, lookup_new_info;
      done.
  - (* disabled *)
    destruct (st_SavePlugin (storage E)
                (CallSetConfig pi None
                   :: CallGetPlugin path (Some db) gerr :: calls w)
                (p_Name E pi) path false None) as [se|] eqn:Hsave;
      eexists _, _,
        [CallSavePlugin (p_Name E pi) path false None _;
         CallSetConfig pi None; CallGetPlugin path (Some db) gerr];
      unfold loadPlugin, resolve_config; rewrite Hopen;
      unfold_prims; cbn; rewrite Hget; cbn; rewrite Hempty; cbn;
      rewrite lookup_new_info; cbn; rewrite Hen; cbn;
      rewrite lookup_new_info; cbn; rewrite Hmap; cbn; rewrite Hsave; cbn;
      (split; [reflexivity|]); cbn; (split; [reflexivity|]);
      (split; [tauto|]); (split; [reflexivity|]);
      intros _; (split; [reflexivity|]);
      (rewrite Hreg by exact Hmap); rewrite lookup_insert_eq, lookup_new_info;
      done.
Qed.

Lemma loadPlugin_empty_config_witness :
  ∃ r w' new,
    loadPlugin
      (sample_env (Some (mkPluginStorageInfo "audit" "plugins/audit.so" true ""), None)
                  None None)
      "plugins/audit.so" GetManager = Some (r, w') ∧
    calls w' = new ++ [] ∧
    In (CallSetConfig 7 None) new ∧
    existsb is_DefaultConfig new = false ∧
    ((true = true → @None errmsg = None) →
     r = None ∧
     registry w' !! "audit" = Some 0 ∧
     infos w' !! 0 =
       Some (mkPluginInfo "audit" "1.0" "request audit" "plugins/audit.so" true None 7)).
Proof.
  apply (loadPlugin_empty_config
           (sample_env (Some (mkPluginStorageInfo "audit" "plugins/audit.so" true ""), None)
                       None None)
           GetManager "plugins/audit.so" 7
           (mkPluginStorageInfo "audit" "plugins/audit.so" true "") None ∅);
    vm_compute; reflexivity.
Defined.

(** A storage that returns a pointer to a zero record next to its error:
    [loadPlugin] only looks at the pointer, takes the record, and registers
    the module with the nil configuration. *)
Lemma read_error_with_record :
  ¬ read_error_as_no_record
      (sample_env (Some (mkPluginStorageInfo "" "" false ""), Some "record not found")
                  None None)
      GetManager "plugins/audit.so".
Proof.
  intros H.
  destruct (H 7 "record not found" eq_refl eq_refl (mk_is_Some _ _ eq_refl))
    as (w' & p & Hrun & Hreg & Hinfo).
  vm_compute in Hrun. injection Hrun as <-.
  vm_compute in Hreg. injection Hreg as <-.
  vm_compute in Hinfo. discriminate Hinfo.
Qed.

(** C10 (amended): when [GetPlugin] returns an error and a nil record, the
    error is dropped: [loadPlugin] returns nil, and so does the walk callback
    of [LoadPlugins]; the module is registered disabled with its
    [DefaultConfig()], as in the case without a record. *)
Theorem loadPlugin_read_error (E : Env) (w : World) (path : string)
    (pi : instance) (gerr : errmsg) (reg : gmap string ptr) :
  plugin_Open E path = Symbol pi →
  st_GetPlugin (storage E) (calls w) path = (None, Some gerr) →
  maps w !! m_plugins w = Some reg →
  ∃ w' p,
    loadPlugin E path w = Some (None, w') ∧
    registry w' !! p_Name E pi = Some p ∧
    infos w' !! p = Some (info_of E pi path false (p_DefaultConfig E pi)) ∧
    last_SetConfig pi (calls w') = Some (p_DefaultConfig E pi) ∧
    (∃ w'', walkFn E path None w = Some (None, w'')).
Proof.
  intros Hopen Hget Hmap.
  destruct (loadPlugin_nil_record E w path pi (Some gerr) reg Hopen Hget Hmap)
    as (w' & serr & Hrun & Hreg & Hinfos & Hcalls).
  exists w', (length (infos w)).
  split; [exact Hrun|]. rewrite Hreg, Hinfos, Hcalls.
  split; [apply lookup_insert_eq|]. split; [apply lookup_new_info|].
  split; [cbn; by rewrite decide_True|].
  unfold walkFn, bind, ret. destruct (HasSuffix path ".so"); [|by eexists].
  rewrite Hrun. by eexists.
Qed.

Lemma loadPlugin_read_error_witness :
  ∃ w' p,
    loadPlugin (sample_env (None, Some "connection refused") None None)
      "plugins/audit.so" GetManager = Some (None, w') ∧
    registry w' !! "audit" = Some p ∧
    infos w' !! p = Some (sample_info false) ∧
    last_SetConfig 7 (calls w') = Some (Some {[ "level" := AnyString "info" ]}) ∧
    (∃ w'', walkFn (sample_env (None, Some "connection refused") None None)
              "plugins/audit.so" None GetManager = Some (None, w'')).
Proof.
  apply (loadPlugin_read_error (sample_env (None, Some "connection refused") None None)
           GetManager "plugins/audit.so" 7 "connection refused" ∅);
    vm_compute; reflexivity.
Defined.

(** ** Dispatching events *)

Lemma HasPrefix_spec (s prefix : string) :
  HasPrefix s prefix = true ↔ ∃ rest, s = String.append prefix rest.
Proof.
  unfold HasPrefix. split.
  - intros [_ Heq%String.eqb_eq]%andb_true_iff. revert s Heq.
    induction prefix as [|a prefix IH]; intros s Heq.
    + by exists s.
    + destruct s as [|b s]; cbn in Heq; [discriminate|].
      injection Heq as -> Heq. destruct (IH s Heq) as [rest ->].
      by exists rest.
  - intros [rest ->]. apply andb_true_iff. split.
    + apply Nat.leb_le. induction prefix as [|a prefix IH]; simpl; lia.
    + apply String.eqb_eq. induction prefix as [|a prefix IH]; simpl.
      * by destruct rest.
      * by f_equal.
Qed.

Lemma eventInterested_spec (events : list EventType) (event : EventType) :
  eventInterested events event = true ↔ In event events.
Proof.
  induction events as [|e events IH]; cbn; [split; [discriminate|tauto]|].
  destruct (String.eqb e event) eqn:Heq.
  - apply String.eqb_eq in Heq. tauto.
  - apply String.eqb_neq in Heq. rewrite IH. split; [tauto|].
    by intros [?|?].
Qed.

Lemma apiInterested_spec (apis : list string) (path : string) :
  apiInterested apis path = true ↔
  ∃ api, In api apis ∧ ∃ rest, path = String.append api rest.
Proof.
  induction apis as [|a apis IH]; cbn.
  - split; [discriminate|]. by intros (? & [] & _).
  - destruct (HasPrefix path a) eqn:Hpre.
    + split; [|done]. intros _. exists a. split; [by left|].
      by apply HasPrefix_spec.
    + rewrite IH. split.
      * intros (api & Hin & Hrest). exists api. split; [by right|done].
      * intros (api & [<-|Hin] & Hrest); [|by exists api].
        apply HasPrefix_spec in Hrest. congruence.
Qed.

Lemma with_calls_same (w : World) : with_calls (calls w) w = w.
Proof. by destruct w. Qed.

Lemma TriggerEvent_body_run (E : Env) (w : World) (ctx : nat)
    (event : EventType) (path : string) (statusCode : Z)
    (requestBody responseBody : any) (kv : string * ptr) (h : history) :
  is_Some (infos w !! kv.2) →
  TriggerEvent_body E ctx event path statusCode requestBody responseBody kv
    (with_calls h w)
  = Some (tt, with_calls
                (option_list (spawned E w ctx event path statusCode
                                requestBody responseBody kv) ++ h) w).
Proof.
  intros [i Hi]. unfold TriggerEvent_body, spawned, wants, bind, deref.
  cbn [infos with_calls]. rewrite Hi.
  destruct (Enabled i); [|done].
  destruct (eventInterested _ _); [|done].
  by destruct (apiInterested _ _).
Qed.

Lemma TriggerEvent_loop (E : Env) (w : World) (ctx : nat) (event : EventType)
    (path : string) (statusCode : Z) (requestBody responseBody : any)
    (entries : list (string * ptr)) (h : history) :
  (∀ kv, kv ∈ entries → is_Some (infos w !! kv.2)) →
  for_range
    (TriggerEvent_body E ctx event path statusCode requestBody responseBody)
    entries (with_calls h w)
  = Some (tt, with_calls
                (reverse (omap (spawned E w ctx event path statusCode
                                  requestBody responseBody) entries) ++ h) w).
Proof.
  revert h. induction entries as [|kv entries IH]; intros h Hvalid; [done|].
  cbn [for_range]. unfold bind at 1.
  rewrite TriggerEvent_body_run by (apply Hvalid; by left).
  rewrite IH by (intros ??; apply Hvalid; by right).
  do 3 f_equal. cbn [omap list_omap].
  destruct (spawned _ _ _ _ _ _ _ _ kv); cbn [option_list app]; [|done].
  by rewrite reverse_cons, <- app_assoc.
Qed.

(** C4: [TriggerEvent] starts the [OnAPIEvent] handler of a plugin exactly
    when its record is enabled, the event is one of its [InterestedEvents()]
    and some element of its [InterestedAPIs()] is a prefix of the path; so a
    plugin with an empty list of either kind gets no event.  The records and
    the registry are left as they were. *)
Theorem TriggerEvent_dispatch (E : Env) (w : World) (ctx : nat)
    (event : EventType) (path : string) (statusCode : Z)
    (requestBody responseBody : any) :
  (∀ k p, registry w !! k = Some p → is_Some (infos w !! p)) →
  ∃ w' new,
    TriggerEvent E ctx event path statusCode requestBody responseBody w
      = Some (tt, w') ∧
    infos w' = infos w ∧
    registry w' = registry w ∧
    calls w' = new ++ calls w ∧
    (∀ c, In c new ↔
       ∃ k p i,
         registry w !! k = Some p ∧ infos w !! p = Some i ∧
         Enabled i = true ∧
         In event (p_InterestedEvents E (Plugin i)) ∧
         (∃ api, In api (p_InterestedAPIs E (Plugin i)) ∧
                 ∃ rest, path = String.append api rest) ∧
         c = CallGoOnAPIEvent (Plugin i) (Name i) ctx event path statusCode
               requestBody responseBody) ∧
    (∀ pl name,
       p_InterestedAPIs E pl = [] ∨ p_InterestedEvents E pl = [] →
       ¬ In (CallGoOnAPIEvent pl name ctx event path statusCode
               requestBody responseBody) new).
Proof.
  intros Hvalid.
  set (entries := map_to_list (registry w)).
  set (new := reverse (omap (spawned E w ctx event path statusCode
                               requestBody responseBody) entries)).
  assert (Hnew : ∀ c, In c new ↔
       ∃ k p i,
         registry w !! k = Some p ∧ infos w !! p = Some i ∧
         Enabled i = true ∧
         In event (p_InterestedEvents E (Plugin i)) ∧
         (∃ api, In api (p_InterestedAPIs E (Plugin i)) ∧
                 ∃ rest, path = String.append api rest) ∧
         c = CallGoOnAPIEvent (Plugin i) (Name i) ctx event path statusCode
               requestBody responseBody).
  { intros c. unfold new.
    rewrite <- list_elem_of_In, elem_of_reverse, list_elem_of_omap. split.
    - intros ([k p] & Hin%elem_of_map_to_list & Hsp).
      unfold spawned in Hsp. cbn in Hsp.
      destruct (infos w !! p) as [i|] eqn:Hi; [|discriminate].
      destruct (wants E event path i) eqn:Hw; [|discriminate].
      injection Hsp as <-. unfold wants in Hw.
      apply andb_true_iff in Hw as [[Hen Hev]%andb_true_iff Hapi].
      exists k, p, i. repeat split; try done.
      + by apply eventInterested_spec.
      + by apply apiInterested_spec.
    - intros (k & p & i & Hk & Hi & Hen & Hev & Hapi & ->).
      exists (k, p). split; [by apply elem_of_map_to_list|].
      unfold spawned, wants. cbn. rewrite Hi, Hen.
      apply eventInterested_spec in Hev. apply apiInterested_spec in Hapi.
      by rewrite Hev, Hapi. }
  exists (with_calls (new ++ calls w) w), new.
  split.
  - unfold TriggerEvent, get_plugins, map_range.
    unfold bind at 1. unfold bind at 1. fold (registry w). fold entries.
    rewrite <- (with_calls_same w) at 1.
    apply TriggerEvent_loop. intros [k p] Hin%elem_of_map_to_list.
    by apply (Hvalid k).
  - repeat split; try done; try apply Hnew.
    intros pl name Hempty Hin. apply Hnew in Hin
      as (k & p & i & _ & _ & _ & Hev & (api & Hapi & _) & [= -> _]).
    destruct Hempty as [Hnil|Hnil]; rewrite Hnil in *; contradiction.
Qed.

Lemma TriggerEvent_dispatch_witness :
  ∃ w' new,
    TriggerEvent (sample_env (None, None) None None) 1 EventAPIBefore
      "/v1/users/42" 200 AnyNil AnyNil (sample_world true) = Some (tt, w') ∧
    infos w' = infos (sample_world true) ∧
    registry w' = registry (sample_world true) ∧
    calls w' = new ++ [] ∧
    (∀ c, In c new ↔
       ∃ k p i,
         registry (sample_world true) !! k = Some p ∧
         infos (sample_world true) !! p = Some i ∧
         Enabled i = true ∧
         In EventAPIBefore [EventAPIBefore] ∧
         (∃ api, In api ["/v1/users"] ∧
                 ∃ rest, "/v1/users/42" = String.append api rest) ∧
         c = CallGoOnAPIEvent (Plugin i) (Name i) 1 EventAPIBefore
               "/v1/users/42" 200 AnyNil AnyNil) ∧
    (∀ pl name,
       ["/v1/users"] = [] ∨ [EventAPIBefore] = [] →
       ¬ In (CallGoOnAPIEvent pl name 1 EventAPIBefore "/v1/users/42" 200
               AnyNil AnyNil) new).
Proof.
  apply (TriggerEvent_dispatch (sample_env (None, None) None None)
           (sample_world true) 1 EventAPIBefore "/v1/users/42" 200 AnyNil AnyNil).
  intros k p. unfold registry. cbn.
  intros [_ <-]%lookup_singleton_Some. by eexists.
Defined.

(** ** The map [GetAllPlugins] returns *)

(** The caller enables the plugin by writing the field of the record it
    reached through the result: the registry shows it enabled. *)
Lemma GetAllPlugins_shares_records :
  ¬ GetAllPlugins_is_deep_copy (sample_world false).
Proof.
  intros H.
  destruct (GetAllPlugins (sample_world false)) as [[r w1]|] eqn:Hget;
    [|by vm_compute in Hget].
  destruct (for_range (mutate r) [FieldAssign "audit" (set_Enabled true)] w1)
    as [[[] w2]|] eqn:Hmut.
  - specialize (H _ _ _ _ Hget Hmut).
    vm_compute in Hget. injection Hget as <- <-.
    vm_compute in Hmut. injection Hmut as <-.
    apply (f_equal (λ v, v !! "audit")) in H. vm_compute in H. discriminate H.
  - vm_compute in Hget. injection Hget as <- <-. by vm_compute in Hmut.
Qed.

Lemma copy_loop (r : mapref) (entries : list (string * ptr)) :
  ∀ (w : World) (m0 : gmap string ptr),
    maps w !! r = Some m0 →
    for_range (λ kv, map_assign r kv.1 kv.2) entries w
    = Some (tt, {| infos := infos w;
                   maps := <[r := foldl (λ m kv, <[kv.1 := kv.2]> m) m0 entries]>
                             (maps w);
                   m_plugins := m_plugins w; m_pluginDir := m_pluginDir w;
                   calls := calls w; logs := logs w |}).
Proof.
  induction entries as [|kv entries IH]; intros w m0 Hr.
  - cbn. rewrite list_insert_id by done. by destruct w.
  - cbn [for_range foldl]. unfold bind, map_assign at 1. rewrite Hr.
    rewrite (IH _ (<[kv.1 := kv.2]> m0)); cbn.
    + by rewrite list_insert_insert_eq.
    + apply list_lookup_insert_eq. by eapply lookup_lt_Some.
Qed.

Lemma foldl_insert_foldr (entries : list (string * ptr)) :
  ∀ m0 : gmap string ptr,
    foldl (λ m kv, <[kv.1 := kv.2]> m) m0 entries
    = foldr (λ kv m, <[kv.1 := kv.2]> m) m0 (reverse entries).
Proof.
  induction entries as [|kv entries IH]; intros m0; [done|].
  cbn [foldl]. by rewrite IH, reverse_cons, foldr_app.
Qed.

Lemma copy_of_map (reg : gmap string ptr) :
  foldl (λ m kv, <[kv.1 := kv.2]> m) ∅ (map_to_list reg) = reg.
Proof.
  rewrite foldl_insert_foldr.
  rewrite <- (list_to_map_to_list reg) at 2.
  symmetry. apply list_to_map_proper.
  - apply NoDup_fst_map_to_list.
  - symmetry. apply reverse_Permutation.
Qed.

(** [GetAllPlugins] allocates a new map and fills it with the entries of the
    registry. *)
Lemma GetAllPlugins_run (w : World) :
  GetAllPlugins w
  = Some (length (maps w),
          {| infos := infos w; maps := maps w ++ [registry w];
             m_plugins := m_plugins w; m_pluginDir := m_pluginDir w;
             calls := calls w; logs := logs w |}).
Proof.
  unfold GetAllPlugins, make_map, get_plugins, map_range.
  unfold bind at 1. unfold bind at 1. unfold bind at 1. cbn [m_plugins maps].
  unfold bind at 1.
  erewrite copy_loop; cbn [maps]; [|by rewrite lookup_app_r, Nat.sub_diag].
  cbn. do 3 f_equal.
  destruct (decide (m_plugins w < length (maps w))) as [Hlt|Hge].
  - rewrite (lookup_app_l _ _ _ Hlt). fold (registry w).
    rewrite copy_of_map.
    by rewrite insert_app_r_alt, Nat.sub_diag by done.
  - assert (Hnone : maps w !! m_plugins w = None)
      by (apply lookup_ge_None; lia).
    unfold registry. rewrite Hnone. cbn.
    destruct (decide (m_plugins w = length (maps w))) as [Heq|Hne].
    + rewrite Heq, lookup_app_r, Nat.sub_diag by done. cbn.
      rewrite map_to_list_empty. cbn.
      by rewrite insert_app_r_alt, Nat.sub_diag by done.
    + rewrite lookup_ge_None_2 by (rewrite length_app; cbn; lia). cbn.
      rewrite map_to_list_empty. cbn.
      by rewrite insert_app_r_alt, Nat.sub_diag by done.
Qed.

Lemma map_mutations_frame (r : mapref) (mus : list Mutation) :
  ∀ w : World,
    forallb map_only mus = true →
    r ≠ m_plugins w →
    r < length (maps w) →
    ∃ w2,
      for_range (mutate r) mus w = Some (tt, w2) ∧
      infos w2 = infos w ∧
      m_plugins w2 = m_plugins w ∧
      maps w2 !! m_plugins w = maps w !! m_plugins w.
Proof.
  induction mus as [|mu mus IH]; intros w Hmus Hne Hlt; [by eexists|].
  cbn in Hmus. apply andb_true_iff in Hmus as [Hmu Hmus].
  assert (is_Some (maps w !! r)) as [m Hm] by (by apply lookup_lt_is_Some_2).
  cbn [for_range]. unfold bind.
  destruct mu as [k p|k|k f]; [| |discriminate];
    cbn [mutate]; unfold map_assign, map_delete; rewrite Hm;
    (edestruct IH as (w2 & Hrun & Hinfos & Hmp & Hmaps);
     [exact Hmus| | |exists w2; split; [exact Hrun|]]);
    cbn; rewrite ?length_insert; try done;
    cbn in Hinfos, Hmp, Hmaps;
    by rewrite Hinfos, Hmp, Hmaps, list_lookup_insert_ne.
Qed.

(** C2 (amended): [GetAllPlugins] returns a new map with the entries of the
    registry.  Whatever a caller assigns to or deletes from that map, the
    registry keeps its keys and every key its record; the records themselves
    are the registry's own (the result holds the same pointers). *)
Theorem GetAllPlugins_fresh_map (w : World) (mus : list Mutation) :
  is_Some (maps w !! m_plugins w) →
  forallb map_only mus = true →
  ∃ r w1 w2,
    GetAllPlugins w = Some (r, w1) ∧
    r ≠ m_plugins w ∧
    maps w1 !! r = Some (registry w) ∧
    view w1 = view w ∧
    for_range (mutate r) mus w1 = Some (tt, w2) ∧
    registry w2 = registry w ∧
    infos w2 = infos w ∧
    view w2 = view w.
Proof.
  intros Hsome Hmus. pose proof (lookup_lt_is_Some_1 _ _ Hsome) as Hlt.
  set (w1 := {| infos := infos w; maps := maps w ++ [registry w];
                m_plugins := m_plugins w; m_pluginDir := m_pluginDir w;
                calls := calls w; logs := logs w |}).
  assert (Hreg1 : registry w1 = registry w).
  { unfold registry, w1. cbn. by rewrite lookup_app_l. }
  destruct (map_mutations_frame (length (maps w)) mus w1 Hmus)
    as (w2 & Hrun & Hinfos & Hmp & Hmaps).
  { cbn. lia. }
  { unfold w1. cbn. rewrite length_app. cbn. lia. }
  assert (Hreg2 : registry w2 = registry w).
  { rewrite <- Hreg1. unfold registry. by rewrite Hmp, Hmaps. }
  exists (length (maps w)), w1, w2.
  split; [apply GetAllPlugins_run|]. split; [lia|].
  split; [unfold w1; cbn; by rewrite lookup_app_r, Nat.sub_diag|].
  split; [by unfold view; rewrite Hreg1|].
  split; [exact Hrun|]. split; [exact Hreg2|]. split; [exact Hinfos|].
  unfold view. by rewrite Hreg2, Hinfos.
Qed.

Lemma GetAllPlugins_fresh_map_witness :
  ∃ r w1 w2,
    GetAllPlugins (sample_world true) = Some (r, w1) ∧
    r ≠ m_plugins (sample_world true) ∧
    maps w1 !! r = Some (registry (sample_world true)) ∧
    view w1 = view (sample_world true) ∧
    for_range (mutate r) [MapDelete "audit"; MapAssign "other" 0] w1
      = Some (tt, w2) ∧
    registry w2 = registry (sample_world true) ∧
    infos w2 = infos (sample_world true) ∧
    view w2 = view (sample_world true).
Proof.
  apply (GetAllPlugins_fresh_map (sample_world true)
           [MapDelete "audit"; MapAssign "other" 0]).
  - by eexists.
  - reflexivity.
Defined.

(** ** When a record is enabled *)

(** The sample plugin is enabled in storage, its [Init] succeeds and every
    [SavePlugin] fails: discovery registers it enabled, though no write to
    the storage ever succeeded. *)
Lemma LoadPlugins_enabled_unsaved :
  ∃ w,
    LoadPlugins
      (sample_env (Some (mkPluginStorageInfo "audit" "plugins/audit.so" true ""), None)
                  None (Some "disk full"))
      GetManager = Some (None, w) ∧
    ¬ enabled_means_saved w.
Proof.
  eexists. split; [vm_compute; reflexivity|].
  intros H.
  destruct (H "audit" 0
              (mkPluginInfo "audit" "1.0" "request audit" "plugins/audit.so"
                 true None 7))
    as (later & earlier & Hcalls & Hsaved); [by vm_compute..|].
  apply (f_equal (existsb is_saved)) in Hcalls.
  rewrite existsb_app, Hsaved in Hcalls. by vm_compute in Hcalls.
Qed.

Lemma enabled_backed_cons (c : Call) (h : history) (i : PluginInfo) :
  enabled_backed h i → enabled_backed (c :: h) i.
Proof.
  intros (later & earlier & -> & Hwhy). exists (c :: later), earlier.
  split; [done|]. destruct Hwhy as [[cfg Hin]|Hread]; [left|by right].
  exists cfg. by right.
Qed.

Lemma enabled_backed_app (new h : history) (i : PluginInfo) :
  enabled_backed h i → enabled_backed (new ++ h) i.
Proof. induction new; [done|]. intros. by apply enabled_backed_cons, IHnew. Qed.

Lemma backed_cons (c : Call) (h : history) (l : list PluginInfo) :
  Forall (backed h) l → Forall (backed (c :: h)) l.
Proof.
  intros Hall. eapply Forall_impl; [exact Hall|].
  intros i Hi Hen. by apply enabled_backed_cons, Hi.
Qed.

Lemma backed_app (new h : history) (l : list PluginInfo) :
  Forall (backed h) l → Forall (backed (new ++ h)) l.
Proof.
  intros Hall. eapply Forall_impl; [exact Hall|].
  intros i Hi Hen. by apply enabled_backed_app, Hi.
Qed.

Lemma backed_lookup (h : history) (l : list PluginInfo) (p : ptr)
    (i : PluginInfo) :
  Forall (backed h) l → l !! p = Some i → backed h i.
Proof. intros Hall Hi. by eapply Forall_lookup_1. Qed.

Lemma Inv_GetManager : Inv GetManager.
Proof. split; cbn; [lia|done|constructor]. Qed.

Lemma keeps_ret {A} (a : A) : keeps (ret a).
Proof. intros w Hw. by exists a, w. Qed.

Lemma keeps_bind {A B} (c : M A) (k : A → M B) :
  keeps c → (∀ a, keeps (k a)) → keeps (bind c k).
Proof.
  intros Hc Hk w Hw. destruct (Hc w Hw) as (a & w1 & Hrun & Hw1).
  unfold bind. rewrite Hrun. by apply Hk.
Qed.

Lemma keeps_log (l : LogLine) : keeps (log_Printf l).
Proof.
  intros w [Hm Hp Hb]. eexists _, _. split; [reflexivity|]. by split.
Qed.

Lemma keeps_for_range {A} (body : A → M unit) (l : list A) :
  (∀ x, keeps (body x)) → keeps (for_range body l).
Proof.
  intros Hbody. induction l as [|x l IH]; [apply keeps_ret|].
  cbn. apply keeps_bind; [apply Hbody|done].
Qed.

Lemma insert_new_info (l : list PluginInfo) (x y : PluginInfo) :
  <[length l := y]> (l ++ [x]) = l ++ [y].
Proof. by rewrite insert_app_r_alt, Nat.sub_diag by done. Qed.

Ltac older := repeat apply backed_cons; assumption.

Ltac inv_heap :=
  lazymatch goal with
  | |- Forall _ (<[_ := _]> _) => apply Forall_insert; [inv_heap|]
  | |- Forall _ (_ ++ [_]) =>
      apply Forall_app; split; [inv_heap|apply Forall_singleton]
  | |- Forall _ _ => older
  end.

(** The invariant at the end of a run that left the map alone. *)
Ltac inv_leaf Hm Hp :=
  eexists _, _; split; [reflexivity|];
  split; cbn [infos maps m_plugins calls logs];
  rewrite ?insert_new_info, ?list_insert_insert_eq;
  [ exact Hm
  | let k := fresh "k" in
    let p := fresh "p" in
    let H := fresh "H" in
    intros k p H; apply Hp in H; rewrite ?length_insert, ?length_app; cbn; lia
  | inv_heap; try (by intros [=]) ].

(** Running a method branch by branch. *)
Ltac exec :=
  repeat (cbn;
    first
    [ rewrite lookup_new_info
    | rewrite list_lookup_insert_eq
        by (rewrite ?length_app, ?length_insert; cbn; lia)
    | match goal with
      | H : ?x = _ |- context [match ?x with _ => _ end] => rewrite H
      | |- context [match ?x with _ => _ end] =>
          lazymatch x with
          | context [match _ with _ => _ end] => fail
          | _ => destruct x eqn:?
          end
      end ]).

Lemma keeps_EnablePlugin (E : Env) (name : string) : keeps (EnablePlugin E name).
Proof.
  intros w [Hm Hp Hb]. unfold EnablePlugin. unfold_prims. cbn.
  fold (registry w).
  destruct (registry w !! name) as [p|] eqn:Hname; cbn; [|inv_leaf Hm Hp].
  assert (is_Some (infos w !! p)) as [i Hi]
    by (apply lookup_lt_is_Some_2; by eapply Hp).
  rewrite Hi; cbn.
  destruct (Enabled i) eqn:Hen; cbn; [inv_leaf Hm Hp|].
  destruct (p_Init E (calls w) (Plugin i)) eqn:Hinit; cbn; [inv_leaf Hm Hp|].
  rewrite Hi; cbn.
  destruct (st_SavePlugin _ _ _ _ _ _) eqn:Hsave; cbn.
  - insert_lookup. cbn. inv_leaf Hm Hp.
  - inv_leaf Hm Hp. intros _.
    exists [CallSavePlugin (Name i) (FilePath i) true (Config i) None], (calls w).
    split; [done|]. left. exists (Config i). by left.
Qed.

Lemma keeps_DisablePlugin (E : Env) (name : string) :
  keeps (DisablePlugin E name).
Proof.
  intros w [Hm Hp Hb]. unfold DisablePlugin. unfold_prims. cbn.
  fold (registry w).
  destruct (registry w !! name) as [p|] eqn:Hname; cbn; [|inv_leaf Hm Hp].
  assert (is_Some (infos w !! p)) as [i Hi]
    by (apply lookup_lt_is_Some_2; by eapply Hp).
  rewrite Hi; cbn.
  destruct (Enabled i) eqn:Hen; cbn; [|inv_leaf Hm Hp].
  destruct (p_Close E (calls w) (Plugin i)) eqn:Hclose; cbn;
    rewrite Hi; cbn;
    destruct (st_SavePlugin _ _ _ _ _ _) eqn:Hsave; cbn; inv_leaf Hm Hp.
Qed.

Lemma keeps_UpdatePluginConfig (E : Env) (name : string) (cfg : config) :
  keeps (UpdatePluginConfig E name cfg).
Proof.
  intros w [Hm Hp Hb]. unfold UpdatePluginConfig. unfold_prims. cbn.
  fold (registry w).
  destruct (registry w !! name) as [p|] eqn:Hname; cbn; [|inv_leaf Hm Hp].
  assert (is_Some (infos w !! p)) as [i Hi]
    by (apply lookup_lt_is_Some_2; by eapply Hp).
  rewrite Hi; cbn. rewrite Hi; cbn.
  pose proof (backed_lookup _ _ _ _ Hb Hi) as Hbi.
  destruct (st_SavePlugin _ _ _ _ _ _) eqn:Hsave; cbn;
    [insert_lookup; cbn|]; inv_leaf Hm Hp;
    intros Hon; repeat apply enabled_backed_cons; by apply Hbi.
Qed.

(** The invariant once [loadPlugin] has stored a new record in the map. *)
Lemma Inv_registered (w : World) (reg : gmap string ptr) (name : string)
    (i : PluginInfo) (h : history) (lg : list LogLine) :
  Inv w →
  maps w !! m_plugins w = Some reg →
  Forall (backed h) (infos w) →
  backed h i →
  Inv {| infos := infos w ++ [i];
         maps := <[m_plugins w := <[name := length (infos w)]> reg]> (maps w);
         m_plugins := m_plugins w; m_pluginDir := m_pluginDir w;
         calls := h; logs := lg |}.
Proof.
  intros [Hm Hp Hb] Hreg Hold Hnew. split; cbn.
  - by rewrite length_insert.
  - intros k p. rewrite (registry_after_assign w reg) by done.
    rewrite length_app. cbn.
    intros [[_ <-]|[_ Hk]]%lookup_insert_Some; [lia|].
    assert (p < length (infos w)); [|lia].
    apply (Hp k). unfold registry. by rewrite Hreg.
  - apply Forall_app. split; [done|by apply Forall_singleton].
Qed.

Lemma keeps_loadPlugin (E : Env) (path : string) : keeps (loadPlugin E path).
Proof.
  intros w Hw. pose proof Hw as [Hm Hp Hb]. unfold loadPlugin, resolve_config.
  assert (is_Some (maps w !! m_plugins w)) as [reg Hreg]
    by (by apply lookup_lt_is_Some_2).
  unfold_prims.
  destruct (plugin_Open E path) as [e|e| |pi]; cbn; [inv_leaf Hm Hp..|].
  destruct (st_GetPlugin (storage E) (calls w) path) as [db gerr] eqn:Hget.
  exec.
  all: try (inv_leaf Hm Hp).
  all: eexists _, _; (split; [reflexivity|]);
    apply (Inv_registered w reg); try done; try older; try (by intros [=]).
  all: cbn; intros _; eexists [_], _; (split; [reflexivity|]); right;
    eexists _, _; (split; [right; left; reflexivity|assumption]).
Qed.

Lemma keeps_walkFn (E : Env) (path : string) (err : option errmsg) :
  keeps (walkFn E path err).
Proof.
  unfold walkFn. destruct err; [apply keeps_ret|].
  apply keeps_bind; [|intros; apply keeps_ret].
  destruct (HasSuffix path ".so"); [|apply keeps_ret].
  apply keeps_bind; [apply keeps_loadPlugin|].
  intros [le|]; [apply keeps_log|apply keeps_ret].
Qed.

Lemma keeps_Walk (E : Env) (entries : list (string * option errmsg)) :
  keeps (Walk E entries).
Proof.
  induction entries as [|[path err] entries IH]; [apply keeps_ret|].
  cbn. apply keeps_bind; [apply keeps_walkFn|].
  intros [e|]; [apply keeps_ret|apply IH].
Qed.

Lemma keeps_LoadPlugins (E : Env) : keeps (LoadPlugins E).
Proof.
  unfold LoadPlugins. apply keeps_bind.
  - intros w Hw. by eexists _, _.
  - intros dir. destruct (os_Stat_IsNotExist E dir); [|apply keeps_Walk].
    destruct (os_MkdirAll E dir); [apply keeps_ret|].
    apply keeps_bind; [apply keeps_log|intros; apply keeps_ret].
Qed.

Lemma keeps_GetPlugin (name : string) : keeps (GetPlugin name).
Proof. intros w Hw. by eexists _, _. Qed.

Lemma keeps_GetAllPlugins : keeps GetAllPlugins.
Proof.
  intros w [Hm Hp Hb]. eexists _, _. split; [apply GetAllPlugins_run|].
  assert (Hreg : ∀ l h lg,
    registry {| infos := l; maps := maps w ++ [registry w];
                m_plugins := m_plugins w; m_pluginDir := m_pluginDir w;
                calls := h; logs := lg |} = registry w).
  { intros. unfold registry. cbn. by rewrite lookup_app_l. }
  split; cbn.
  - rewrite length_app. lia.
  - intros k p. rewrite Hreg. apply Hp.
  - done.
Qed.

Lemma keeps_TriggerEvent (E : Env) (ctx : nat) (event : EventType)
    (path : string) (statusCode : Z) (requestBody responseBody : any) :
  keeps (TriggerEvent E ctx event path statusCode requestBody responseBody).
Proof.
  intros w [Hm Hp Hb]. set (entries := map_to_list (registry w)).
  eexists _, _. split.
  - unfold TriggerEvent, get_plugins, map_range.
    unfold bind at 1. unfold bind at 1. fold (registry w). fold entries.
    rewrite <- (with_calls_same w) at 1.
    apply TriggerEvent_loop. intros [k p] Hin%elem_of_map_to_list.
    apply lookup_lt_is_Some_2. by apply (Hp k).
  - split; cbn; [done|apply Hp|by apply backed_app].
Qed.

Lemma Shutdown_loop (E : Env) (entries : list (string * ptr)) :
  ∀ w : World,
    Inv w →
    (∀ kv, kv ∈ entries → kv.2 < length (infos w)) →
    ∃ w',
      for_range (λ kv,
        let! pluginInfo := deref kv.2 in
        let! err := Plugin_Close E (Plugin pluginInfo) in
        if err is Some e
        then log_Printf (LogShutdownCloseFailed (Name pluginInfo) e)
        else ret tt) entries w = Some (tt, w') ∧
      Inv w' ∧ maps w' = maps w.
Proof.
  induction entries as [|kv entries IH]; intros w Hw Hvalid; [by exists w|].
  pose proof Hw as [Hm Hp Hb].
  assert (is_Some (infos w !! kv.2)) as [i Hi]
    by (apply lookup_lt_is_Some_2, Hvalid; by left).
  cbn [for_range]. unfold bind at 1. unfold bind at 1. unfold deref.
  rewrite Hi. unfold Plugin_Close. unfold_prims. cbn.
  destruct (p_Close E (calls w) (Plugin i)) as [e|] eqn:Hclose; cbn;
    (edestruct IH as (w' & Hrun & Hw' & Hmaps);
     [|
      |exists w'; split; [exact Hrun|split; [exact Hw'|by rewrite Hmaps]]]);
    try (split; cbn; [done|apply Hp|by apply backed_cons]);
    cbn; intros ??; apply Hvalid; by right.
Qed.

Lemma keeps_Shutdown (E : Env) : keeps (Shutdown E).
Proof.
  intros w Hw. pose proof Hw as [Hm Hp Hb].
  destruct (Shutdown_loop E (map_to_list (registry w)) w Hw)
    as (w' & Hrun & [Hm' Hp' Hb'] & Hmaps).
  { intros [k p] Hin%elem_of_map_to_list. by apply (Hp k). }
  unfold Shutdown, get_plugins, map_range.
  unfold bind at 1. unfold bind at 1. unfold bind at 1. fold (registry w).
  rewrite Hrun. unfold_prims. cbn. eexists _, _. split; [reflexivity|].
  split; cbn.
  - rewrite length_app. cbn. lia.
  - intros k p. unfold registry. cbn.
    by rewrite lookup_app_r, Nat.sub_diag by done.
  - done.
Qed.

Lemma keeps_serve (E : Env) (req : Request) : keeps (serve E req).
Proof.
  destruct req; cbn;
    try (apply keeps_bind; [|intros; apply keeps_ret]).
  - apply keeps_LoadPlugins.
  - apply keeps_loadPlugin.
  - apply keeps_GetPlugin.
  - apply keeps_GetAllPlugins.
  - apply keeps_EnablePlugin.
  - apply keeps_DisablePlugin.
  - apply keeps_UpdatePluginConfig.
  - apply keeps_TriggerEvent.
  - apply keeps_Shutdown.
Qed.

(** C1 (amended): whatever calls the manager has served since it was
    built, none of them panics, and a record of the registry is enabled only
    if [Init] succeeded on its instance and the storage agrees: a
    [SavePlugin] of the enabled record succeeded after that [Init], or the
    record read from the storage for its file before that [Init] was
    enabled. *)
Theorem enabled_only_when_backed (E : Env) (reqs : list Request) :
  ∃ w,
    serve_all E reqs GetManager = Some (tt, w) ∧
    ∀ name p i,
      registry w !! name = Some p → infos w !! p = Some i → Enabled i = true →
      enabled_backed (calls w) i.
Proof.
  destruct (keeps_for_range (serve E) reqs (keeps_serve E) GetManager
              Inv_GetManager) as ([] & w & Hrun & [Hm Hp Hb]).
  exists w. split; [exact Hrun|].
  intros name p i _ Hi Hen. by apply (backed_lookup _ _ _ _ Hb Hi).
Qed.

Lemma enabled_only_when_backed_witness :
  ∃ w i,
    serve_all (sample_env (None, None) None None)
      [ReqLoadPlugins; ReqEnablePlugin "audit"] GetManager = Some (tt, w) ∧
    registry w !! "audit" = Some 0 ∧
    infos w !! 0 = Some i ∧
    Enabled i = true ∧
    enabled_backed (calls w) i.
Proof.
  destruct (enabled_only_when_backed (sample_env (None, None) None None)
              [ReqLoadPlugins; ReqEnablePlugin "audit"]) as (w & Hrun & Hall).
  exists w, (sample_info true).
  assert (Hreg : registry w !! "audit" = Some 0)
    by (vm_compute in Hrun; injection Hrun as <-; vm_compute; reflexivity).
  assert (Hinfo : infos w !! 0 = Some (sample_info true))
    by (vm_compute in Hrun; injection Hrun as <-; vm_compute; reflexivity).
  split; [exact Hrun|]. split; [exact Hreg|]. split; [exact Hinfo|].
  split; [reflexivity|]. exact (Hall "audit" 0 (sample_info true) Hreg Hinfo eq_refl).
Defined.

(** ** Enabling and disabling: the other outcomes *)

(** X1: [EnablePlugin], [DisablePlugin] and [UpdatePluginConfig] on a name
    the registry does not hold return the not-found error and change nothing:
    no record is touched and no collaborator is called. *)
Theorem unknown_name_rejected (E : Env) (w : World) (name : string)
    (cfg : config) :
  registry w !! name = None →
  EnablePlugin E name w = Some (Some (ErrNotExist name), w) ∧
  DisablePlugin E name w = Some (Some (ErrNotExist name), w) ∧
  UpdatePluginConfig E name cfg w = Some (Some (ErrNotExist name), w) ∧
  GetPlugin name w = Some (None, w).
Proof.
  intros Hname. unfold registry in Hname.
  unfold EnablePlugin, DisablePlugin, UpdatePluginConfig, GetPlugin.
  unfold_prims. by rewrite Hname.
Qed.

Lemma unknown_name_rejected_witness :
  EnablePlugin (sample_env (None, None) None None) "metrics" (sample_world true)
    = Some (Some (ErrNotExist "metrics"), sample_world true) ∧
  DisablePlugin (sample_env (None, None) None None) "metrics" (sample_world true)
    = Some (Some (ErrNotExist "metrics"), sample_world true) ∧
  UpdatePluginConfig (sample_env (None, None) None None) "metrics" None
    (sample_world true)
    = Some (Some (ErrNotExist "metrics"), sample_world true) ∧
  GetPlugin "metrics" (sample_world true) = Some (None, sample_world true).
Proof.
  apply (unknown_name_rejected (sample_env (None, None) None None)
           (sample_world true) "metrics" None).
  vm_compute; reflexivity.
Defined.

(** X2: asking for the state a record is already in is a no-op:
    [EnablePlugin] on an enabled record and [DisablePlugin] on a disabled one
    return nil and leave the world as it was, so neither [Init], [Close] nor
    [SavePlugin] is called. *)
Theorem already_in_state (E : Env) (w : World) (name : string) (p : ptr)
    (i : PluginInfo) :
  registry w !! name = Some p →
  infos w !! p = Some i →
  (Enabled i = true → EnablePlugin E name w = Some (None, w)) ∧
  (Enabled i = false → DisablePlugin E name w = Some (None, w)).
Proof.
  intros Hname Hi. unfold registry in Hname.
  unfold EnablePlugin, DisablePlugin. unfold_prims.
  rewrite Hname. cbn. rewrite Hi.
  split; intros Hen; by rewrite Hen.
Qed.

Lemma already_in_state_witness :
  (Enabled (sample_info true) = true →
   EnablePlugin (sample_env (None, None) None None) "audit" (sample_world true)
     = Some (None, sample_world true)) ∧
  (Enabled (sample_info true) = false →
   DisablePlugin (sample_env (None, None) None None) "audit" (sample_world true)
     = Some (None, sample_world true)).
Proof.
  apply (already_in_state (sample_env (None, None) None None)
           (sample_world true) "audit" 0 (sample_info true));
    vm_compute; reflexivity.
Defined.

(** X3: when [Init] fails, [EnablePlugin] returns the init error and
    nothing else happened: the record, the registry and the log are as
    before, and [Init] is the only call made ([SavePlugin] and [Close] are
    not called). *)
Theorem EnablePlugin_init_failure (E : Env) (w : World) (name : string)
    (p : ptr) (i : PluginInfo) (e : errmsg) :
  registry w !! name = Some p →
  infos w !! p = Some i →
  Enabled i = false →
  p_Init E (calls w) (Plugin i) = Some e →
  ∃ w',
    EnablePlugin E name w = Some (Some (ErrInit e), w') ∧
    infos w' = infos w ∧
    maps w' = maps w ∧
    logs w' = logs w ∧
    calls w' = CallInit (Plugin i) (Some e) :: calls w.
Proof.
  intros Hname Hi Hoff Hinit. unfold registry in Hname.
  eexists. unfold EnablePlugin. unfold_prims. cbn.
  rewrite Hname, Hi. cbn. rewrite Hoff, Hinit. cbn. done.
Qed.

Lemma EnablePlugin_init_failure_witness :
  ∃ w',
    EnablePlugin (sample_env (None, None) (Some "no upstream") None) "audit"
      (sample_world false) = Some (Some (ErrInit "no upstream"), w') ∧
    infos w' = infos (sample_world false) ∧
    maps w' = maps (sample_world false) ∧
    logs w' = logs (sample_world false) ∧
    calls w' = [CallInit 7 (Some "no upstream")].
Proof.
  apply (EnablePlugin_init_failure
           (sample_env (None, None) (Some "no upstream") None)
           (sample_world false) "audit" 0 (sample_info false) "no upstream");
    vm_compute; reflexivity.
Defined.





(** X6: disabling an enabled plugin and enabling it again brings the record
    back to what it was, provided the second [Init] and the write of
    [enabled = true] succeed; over the two calls the instance was closed
    once and initialised once more. *)
Theorem Disable_then_Enable (E : Env) (w w1 : World) (name : string)
    (p : ptr) (i : PluginInfo) :
  registry w !! name = Some p →
  infos w !! p = Some i →
  Enabled i = true →
  DisablePlugin E name w = Some (None, w1) →
  p_Init E (calls w1) (Plugin i) = None →
  st_SavePlugin (storage E) (CallInit (Plugin i) None :: calls w1)
    (Name i) (FilePath i) true (Config i) = None →
  ∃ w2,
    EnablePlugin E name w1 = Some (None, w2) ∧
    registry w2 = registry w ∧
    infos w2 = infos w ∧
    inits (Plugin i) (calls w2) = S (inits (Plugin i) (calls w)) ∧
    closes (Plugin i) (calls w2) = S (closes (Plugin i) (calls w)).
Proof.
  intros Hname Hi Hon Hdis Hinit Hsave. unfold registry in Hname.
  assert (Hw1 : infos w1 = <[p := set_Enabled false i]> (infos w) ∧
                maps w1 = maps w ∧ m_plugins w1 = m_plugins w ∧
                ∃ cerr serr,
                  calls w1 = CallSavePlugin (Name i) (FilePath i) false
                               (Config i) serr
                               :: CallClose (Plugin i) cerr :: calls w).
  { revert Hdis. unfold DisablePlugin. unfold_prims. cbn.
    rewrite Hname, Hi. cbn. rewrite Hon. cbn.
    destruct (p_Close E (calls w) (Plugin i)); cbn; rewrite Hi; cbn;
      destruct (st_SavePlugin (storage E) (CallClose _ _ :: calls w) _ _ _ _);
      cbn; intros Heq;
      simplify_eq; cbn; (do 3 (split; [reflexivity|])); eauto. }
  destruct Hw1 as (Hinfos & Hmaps & Hmp & cerr & serr & Hcalls).
  assert (Hp1 : infos w1 !! p = Some (set_Enabled false i))
    by (rewrite Hinfos; by insert_lookup).
  eexists. unfold EnablePlugin. unfold_prims. cbn.
  rewrite Hmp, Hmaps, Hname. cbn. rewrite Hp1. cbn. rewrite Hinit. cbn.
  rewrite Hp1. cbn. rewrite Hsave. cbn.
  split; [reflexivity|]. cbn. unfold registry. cbn.
  rewrite Hmp, Hmaps. split; [reflexivity|].
  split.
  - rewrite Hinfos, list_insert_insert_eq, set_Enabled_twice, <- Hon,
      set_Enabled_same. by apply list_insert_id.
  - rewrite Hcalls. cbn. by rewrite !decide_True.
Qed.

Lemma Disable_then_Enable_witness :
  ∃ w2,
    EnablePlugin (sample_env (None, None) None None) "audit"
      {| infos := [sample_info false]; maps := [{[ "audit" := 0 ]}];
         m_plugins := 0; m_pluginDir := "./plugins";
         calls := [CallSavePlugin "audit" "plugins/audit.so" false
                     (Some {[ "level" := AnyString "info" ]}) None;
                   CallClose 7 None];
         logs := [] |} = Some (None, w2) ∧
    registry w2 = registry (sample_world true) ∧
    infos w2 = infos (sample_world true) ∧
    inits 7 (calls w2) = 1 ∧
    closes 7 (calls w2) = 1.
Proof.
  apply (Disable_then_Enable (sample_env (None, None) None None)
           (sample_world true) _ "audit" 0 (sample_info true));
    vm_compute; reflexivity.
Defined.



(** ** Shutting down *)

Lemma Shutdown_loop_calls (E : Env) (entries : list (string * ptr)) :
  ∀ w : World,
    (∀ kv, kv ∈ entries → is_Some (infos w !! kv.2)) →
    ∃ w' new,
      for_range (λ kv,
        let! pluginInfo := deref kv.2 in
        let! err := Plugin_Close E (Plugin pluginInfo) in
        if err is Some e
        then log_Printf (LogShutdownCloseFailed (Name pluginInfo) e)
        else ret tt) entries w = Some (tt, w') ∧
      infos w' = infos w ∧ maps w' = maps w ∧ m_plugins w' = m_plugins w ∧
      m_pluginDir w' = m_pluginDir w ∧
      calls w' = new ++ calls w ∧
      length new = length entries ∧
      (∀ c, In c new →
         ∃ kv i r, kv ∈ entries ∧ infos w !! kv.2 = Some i ∧
                   c = CallClose (Plugin i) r) ∧
      (∀ kv i, kv ∈ entries → infos w !! kv.2 = Some i →
         ∃ r, In (CallClose (Plugin i) r) new) ∧
      (entries = [] → logs w' = logs w).
Proof.
  induction entries as [|kv entries IH]; intros w Hvalid.
  - exists w, []. do 7 (split; [done|]). split; [by intros c []|].
    split; [|done]. intros kv i Hin. by apply elem_of_nil in Hin.
  - assert (is_Some (infos w !! kv.2)) as [i Hi] by (apply Hvalid; by left).
    cbn [for_range]. unfold bind at 1. unfold bind at 1. unfold deref.
    rewrite Hi. unfold Plugin_Close. unfold_prims. cbn.
    set (r := p_Close E (calls w) (Plugin i)).
    set (w1 := {| infos := infos w; maps := maps w; m_plugins := m_plugins w;
                  m_pluginDir := m_pluginDir w;
                  calls := CallClose (Plugin i) r :: calls w;
                  logs := (if r is Some e
                           then [LogShutdownCloseFailed (Name i) e] else [])
                          ++ logs w |}).
    destruct (IH w1) as (w' & new & Hrun & Hinfos & Hmaps & Hmp & Hdir
                         & Hcalls & Hlen & Hall & Hevery & _).
    { intros kv' Hin. apply Hvalid. by right. }
    exists w', (new ++ [CallClose (Plugin i) r]).
    split.
    { rewrite <- Hrun. unfold w1. by destruct r. }
    split; [done|]. split; [done|]. split; [done|]. split; [done|].
    split; [by rewrite Hcalls, <- app_assoc|].
    split; [rewrite length_app; cbn; lia|].
    split; [|split; [|done]].
    + intros c [Hin|[<-|[]]]%in_app_or.
      * destruct (Hall c Hin) as (kv' & i' & r' & Hkv & Hi' & ->).
        exists kv', i', r'. split; [by right|done].
      * exists kv, i, r. split; [by left|done].
    + intros kv' i' [->|Hin]%elem_of_cons Hi'.
      * exists r. apply in_or_app. right. left. congruence.
      * destruct (Hevery kv' i' Hin Hi') as [r' Hr']. exists r'.
        apply in_or_app. by left.
Qed.

(** [Shutdown] as a whole: the loop, then the new map. *)
Lemma Shutdown_run (E : Env) (w : World) :
  (∀ k p, registry w !! k = Some p → is_Some (infos w !! p)) →
  ∃ new lg,
    Shutdown E w
    = Some (tt, {| infos := infos w; maps := maps w ++ [∅];
                   m_plugins := length (maps w);
                   m_pluginDir := m_pluginDir w;
                   calls := new ++ calls w; logs := lg |}) ∧
    length new = size (registry w) ∧
    (∀ c, In c new →
       ∃ k p i r, registry w !! k = Some p ∧ infos w !! p = Some i ∧
                  c = CallClose (Plugin i) r) ∧
    (∀ k p i, registry w !! k = Some p → infos w !! p = Some i →
       ∃ r, In (CallClose (Plugin i) r) new) ∧
    (registry w = ∅ → lg = logs w).
Proof.
  intros Hvalid.
  destruct (Shutdown_loop_calls E (map_to_list (registry w)) w)
    as (w1 & new & Hrun & Hinfos & Hmaps & Hmp & Hdir & Hcalls & Hlen
        & Hall & Hevery & Hlogs).
  { intros [k p] Hin%elem_of_map_to_list. by apply (Hvalid k). }
  exists new, (logs w1). split.
  { unfold Shutdown, get_plugins, map_range.
    unfold bind at 1. unfold bind at 1. unfold bind at 1. fold (registry w).
    rewrite Hrun. unfold_prims. cbn.
    by rewrite Hinfos, Hmaps, Hdir, Hcalls. }
  split; [by rewrite Hlen, length_map_to_list|]. split; [|split].
  - intros c Hin. destruct (Hall c Hin) as ([k p] & i & r & Hkv & Hi & ->).
    exists k, p, i, r. split; [by apply elem_of_map_to_list|done].
  - intros k p i Hk Hi. apply (Hevery (k, p) i); [|done].
    by apply elem_of_map_to_list.
  - intros Hempty. apply Hlogs. by rewrite Hempty, map_to_list_empty.
Qed.

Lemma registry_new_map (l : list PluginInfo) (ms : list (gmap string ptr))
    (dir : string) (h : history) (lg : list LogLine) :
  registry {| infos := l; maps := ms ++ [∅]; m_plugins := length ms;
              m_pluginDir := dir; calls := h; logs := lg |} = ∅.
Proof. unfold registry. cbn. by rewrite lookup_app_r, Nat.sub_diag by done. Qed.

(** X8: [Shutdown] calls [Close] once for every entry of the registry,
    whether its record is enabled or not, makes no other call, and installs
    a new empty map.  The records themselves are not written: one that was
    enabled still says so. *)
Theorem Shutdown_closes_all (E : Env) (w : World) :
  (∀ k p, registry w !! k = Some p → is_Some (infos w !! p)) →
  ∃ w' new,
    Shutdown E w = Some (tt, w') ∧
    registry w' = ∅ ∧
    infos w' = infos w ∧
    calls w' = new ++ calls w ∧
    length new = size (registry w) ∧
    (∀ c, In c new →
       ∃ k p i r, registry w !! k = Some p ∧ infos w !! p = Some i ∧
                  c = CallClose (Plugin i) r) ∧
    (∀ k p i, registry w !! k = Some p → infos w !! p = Some i →
       ∃ r, In (CallClose (Plugin i) r) new).
Proof.
  intros Hvalid.
  destruct (Shutdown_run E w Hvalid)
    as (new & lg & Hrun & Hlen & Hall & Hevery & _).
  eexists _, new. split; [exact Hrun|].
  split; [apply registry_new_map|]. by cbn.
Qed.

Lemma Shutdown_closes_all_witness :
  ∃ w' new,
    Shutdown (sample_env (None, None) None None) (sample_world false)
      = Some (tt, w') ∧
    registry w' = ∅ ∧
    infos w' = infos (sample_world false) ∧
    calls w' = new ++ calls (sample_world false) ∧
    length new = size (registry (sample_world false)) ∧
    (∀ c, In c new →
       ∃ k p i r, registry (sample_world false) !! k = Some p ∧
                  infos (sample_world false) !! p = Some i ∧
                  c = CallClose (Plugin i) r) ∧
    (∀ k p i, registry (sample_world false) !! k = Some p →
              infos (sample_world false) !! p = Some i →
       ∃ r, In (CallClose (Plugin i) r) new).
Proof.
  apply (Shutdown_closes_all (sample_env (None, None) None None)
           (sample_world false)).
  intros k p. unfold registry. cbn.
  intros [_ <-]%lookup_singleton_Some. by eexists.
Defined.

(** X9: [Shutdown] may be called twice: the second call finds the registry
    empty, calls nothing, logs nothing and leaves the registry empty. *)
Theorem Shutdown_twice (E : Env) (w : World) :
  (∀ k p, registry w !! k = Some p → is_Some (infos w !! p)) →
  ∃ w1 w2,
    Shutdown E w = Some (tt, w1) ∧
    Shutdown E w1 = Some (tt, w2) ∧
    registry w1 = ∅ ∧
    registry w2 = ∅ ∧
    calls w2 = calls w1 ∧
    logs w2 = logs w1 ∧
    infos w2 = infos w.
Proof.
  intros Hvalid.
  destruct (Shutdown_run E w Hvalid) as (new & lg & Hrun & _).
  eexists _, _. split; [exact Hrun|].
  match goal with |- Shutdown E ?x = _ ∧ _ => set (w1 := x) end.
  assert (Hempty : registry w1 = ∅) by apply registry_new_map.
  destruct (Shutdown_run E w1) as (new2 & lg2 & Hrun2 & Hlen2 & _ & _ & Hlg2).
  { intros k p. by rewrite Hempty, lookup_empty. }
  rewrite Hempty, map_size_empty in Hlen2.
  apply nil_length_inv in Hlen2. subst new2.
  rewrite (Hlg2 Hempty) in Hrun2.
  split; [exact Hrun2|]. split; [exact Hempty|].
  split; [apply registry_new_map|]. by cbn.
Qed.

Lemma Shutdown_twice_witness :
  ∃ w1 w2,
    Shutdown (sample_env (None, None) None None) (sample_world true)
      = Some (tt, w1) ∧
    Shutdown (sample_env (None, None) None None) w1 = Some (tt, w2) ∧
    registry w1 = ∅ ∧
    registry w2 = ∅ ∧
    calls w2 = calls w1 ∧
    logs w2 = logs w1 ∧
    infos w2 = infos (sample_world true).
Proof.
  apply (Shutdown_twice (sample_env (None, None) None None) (sample_world true)).
  intros k p. unfold registry. cbn.
  intros [_ <-]%lookup_singleton_Some. by eexists.
Defined.

(** ** Discovery *)

Lemma walkFn_no_error (E : Env) (path : string) (w : World)
    (r : option error) (w' : World) :
  walkFn E path None w = Some (r, w') → r = None.
Proof.
  unfold walkFn, bind, ret.
  destruct (HasSuffix path ".so"); [|by intros [= <- _]].
  destruct (loadPlugin E path w) as [[[le|] w1]|]; [| |done].
  - unfold log_Printf. by intros [= <- _].
  - by intros [= <- _].
Qed.

Lemma Walk_app (E : Env) (l1 l2 : list (string * option errmsg)) (w : World) :
  Walk E (l1 ++ l2) w
  = match Walk E l1 w with
    | Some (None, w1) => Walk E l2 w1
    | other => other
    end.
Proof.
  revert w. induction l1 as [|[path err] l1 IH]; intros w; [done|].
  cbn [app Walk]. unfold bind.
  destruct (walkFn E path err w) as [[[e|] w1]|]; [done| |done].
  apply IH.
Qed.

Lemma Walk_no_error (E : Env) (entries : list (string * option errmsg)) :
  Forall (λ entry, entry.2 = None) entries →
  ∀ w, Inv w → ∃ w', Walk E entries w = Some (None, w') ∧ Inv w'.
Proof.
  induction 1 as [|[path err] entries Herr _ IH]; intros w Hw;
    [by exists w|].
  cbn in Herr. subst err. cbn [Walk]. unfold bind.
  destruct (keeps_walkFn E path None w Hw) as (r & w1 & Hrun & Hw1).
  rewrite Hrun. rewrite (walkFn_no_error _ _ _ _ _ Hrun). by apply IH.
Qed.

(** X10: when the plugin directory does not exist, [LoadPlugins] creates it
    and returns nil without loading anything (only a log line is written);
    when creating it fails, the error is returned and nothing changed.  The
    directory is not walked in either case. *)
Theorem LoadPlugins_missing_directory (E : Env) (w : World) :
  os_Stat_IsNotExist E (m_pluginDir w) = true →
  match os_MkdirAll E (m_pluginDir w) with
  | None =>
      ∃ w', LoadPlugins E w = Some (None, w') ∧
            infos w' = infos w ∧ maps w' = maps w ∧ calls w' = calls w ∧
            logs w' = LogDirCreated (m_pluginDir w) :: logs w
  | Some e => LoadPlugins E w = Some (Some (ErrMkdir e), w)
  end.
Proof.
  intros Hstat. unfold LoadPlugins, get_pluginDir, bind. rewrite Hstat.
  destruct (os_MkdirAll E (m_pluginDir w)); [done|]. by eexists.
Qed.


(** X12: an error of the walk aborts discovery: the files walked before it
    have been handled, [LoadPlugins] returns that error, and the files after
    it are not looked at. *)
Theorem LoadPlugins_stops_at_walk_error (E : Env) (w : World)
    (before after : list (string * option errmsg)) (path : string)
    (e : errmsg) :
  Inv w →
  os_Stat_IsNotExist E (m_pluginDir w) = false →
  filepath_Walk E (m_pluginDir w) = before ++ (path, Some e) :: after →
  Forall (λ entry, entry.2 = None) before →
  ∃ w',
    Walk E before w = Some (None, w') ∧
    LoadPlugins E w = Some (Some (ErrWalk e), w').
Proof.
  intros Hw Hstat Hwalk Hbefore.
  destruct (Walk_no_error E before Hbefore w Hw) as (w' & Hrun & _).
  exists w'. split; [exact Hrun|].
  unfold LoadPlugins, get_pluginDir, bind. rewrite Hstat, Hwalk.
  by rewrite Walk_app, Hrun.
Qed.

(** X13: only files whose name ends in [.so] are candidates: when the walk
    yields no such file (and no error), [LoadPlugins] returns nil and the
    world is exactly as before: nothing opened, called, stored or logged. *)
Theorem LoadPlugins_ignores_other_files (E : Env) (w : World) :
  os_Stat_IsNotExist E (m_pluginDir w) = false →
  Forall (λ entry, entry.2 = None ∧ HasSuffix entry.1 ".so" = false)
    (filepath_Walk E (m_pluginDir w)) →
  LoadPlugins E w = Some (None, w).
Proof.
  intros Hstat Hwalk. unfold LoadPlugins, get_pluginDir, bind.
  rewrite Hstat. induction Hwalk as [|[path err] entries [Herr Hso] _ IH];
    [done|].
  cbn in Herr, Hso. subst err. cbn [Walk]. unfold bind, walkFn, ret.
  by rewrite Hso.
Qed.

Lemma LoadPlugins_missing_directory_witness :
  ∃ w', LoadPlugins (sample_env_fs true None []) GetManager = Some (None, w') ∧
        infos w' = infos GetManager ∧ maps w' = maps GetManager ∧
        calls w' = calls GetManager ∧
        logs w' = LogDirCreated (m_pluginDir GetManager) :: logs GetManager.
Proof.
  apply (LoadPlugins_missing_directory (sample_env_fs true None []) GetManager).
  reflexivity.
Defined.


Lemma LoadPlugins_stops_at_walk_error_witness :
  ∃ w',
    Walk (sample_env_fs false None
            [("./plugins", None); ("plugins/audit.so", None);
             ("plugins/locked", Some "permission denied");
             ("plugins/zeta.so", None)])
      [("./plugins", None); ("plugins/audit.so", None)] GetManager
      = Some (None, w') ∧
    LoadPlugins (sample_env_fs false None
                   [("./plugins", None); ("plugins/audit.so", None);
                    ("plugins/locked", Some "permission denied");
                    ("plugins/zeta.so", None)])
      GetManager = Some (Some (ErrWalk "permission denied"), w').
Proof.
  apply (LoadPlugins_stops_at_walk_error
           (sample_env_fs false None
              [("./plugins", None); ("plugins/audit.so", None);
               ("plugins/locked", Some "permission denied");
               ("plugins/zeta.so", None)])
           GetManager [("./plugins", None); ("plugins/audit.so", None)]
           [("plugins/zeta.so", None)] "plugins/locked" "permission denied").
  - apply Inv_GetManager.
  - reflexivity.
  - reflexivity.
  - repeat constructor.
Defined.

Lemma LoadPlugins_ignores_other_files_witness :
  LoadPlugins (sample_env_fs false None
                 [("./plugins", None); ("./plugins/README", None);
                  ("./plugins/audit.so.bak", None)])
    GetManager = Some (None, GetManager).
Proof.
  apply (LoadPlugins_ignores_other_files
           (sample_env_fs false None
              [("./plugins", None); ("./plugins/README", None);
               ("./plugins/audit.so.bak", None)]) GetManager).
  - reflexivity.
  - repeat constructor.
Defined.

(** ** Loading one plugin: the other outcomes *)

(** X14: when the file cannot be opened, has no [GetPlugin] symbol, or the
    symbol has the wrong type, [loadPlugin] returns the matching error
    before it touches anything: no storage or plugin call is made, and the
    records and the registry are as before. *)
Theorem loadPlugin_open_failure (E : Env) (w : World) (path : string) :
  (∀ pi, plugin_Open E path ≠ Symbol pi) →
  ∃ err w',
    loadPlugin E path w = Some (Some err, w') ∧
    err = match plugin_Open E path with
          | OpenFailed e => ErrOpen e
          | LookupFailed e => ErrLookup e
          | _ => ErrSignature
          end ∧
    infos w' = infos w ∧ maps w' = maps w ∧ m_plugins w' = m_plugins w ∧
    calls w' = calls w.
Proof.
  intros Hopen. unfold loadPlugin.
  destruct (plugin_Open E path) as [e|e| |pi]; [..|by destruct (Hopen pi)];
    by eexists _, _.
Qed.

Lemma loadPlugin_open_failure_witness :
  ∃ err w',
    loadPlugin (sample_env (None, None) None None) "plugins/gone.so" GetManager
      = Some (Some err, w') ∧
    err = ErrOpen "no such file" ∧
    infos w' = infos GetManager ∧ maps w' = maps GetManager ∧
    m_plugins w' = m_plugins GetManager ∧
    calls w' = calls GetManager.
Proof.
  apply (loadPlugin_open_failure (sample_env (None, None) None None)
           GetManager "plugins/gone.so").
  intros pi. vm_compute. discriminate.
Defined.

Lemma resolve_config_record (E : Env) (pi : instance)
    (db : PluginStorageInfo) (cfg : config) (w : World) :
  config_of_record E db cfg →
  resolve_config E pi (Some db) w = Some (inr (cfg, db_Enabled db), w).
Proof.
  unfold resolve_config.
  intros [[-> ->]|[Hne%String.eqb_neq Hparse]]; [done|].
  by rewrite Hne, Hparse.
Qed.

(** X15: a module whose storage record says enabled and whose [Init] fails
    is not registered: [loadPlugin] returns the skip error, the registry is
    as before, the failure is logged, and the storage is told
    [enabled = false] with the resolved configuration; whether that write
    succeeds makes no difference to the result. *)
Theorem loadPlugin_init_failure (E : Env) (w : World) (path : string)
    (pi : instance) (db : PluginStorageInfo) (gerr : option errmsg)
    (cfg : config) (e : errmsg) :
  plugin_Open E path = Symbol pi →
  st_GetPlugin (storage E) (calls w) path = (Some db, gerr) →
  config_of_record E db cfg →
  db_Enabled db = true →
  p_Init E (CallSetConfig pi cfg :: CallGetPlugin path (Some db) gerr :: calls w)
    pi = Some e →
  ∃ w' serr,
    loadPlugin E path w = Some (Some (ErrInitSkipped (p_Name E pi)), w') ∧
    registry w' = registry w ∧
    infos w' = infos w ++ [info_of E pi path false cfg] ∧
    calls w' = CallSavePlugin (p_Name E pi) path false cfg serr
                 :: CallInit pi (Some e) :: CallSetConfig pi cfg
                 :: CallGetPlugin path (Some db) gerr :: calls w ∧
    In (LogInitFailed (p_Name E pi) e) (logs w').
Proof.
  intros Hopen Hget Hcfg Hen Hinit.
  destruct (st_SavePlugin (storage E)
              (CallInit pi (Some e) :: CallSetConfig pi cfg
                 :: CallGetPlugin path (Some db) gerr :: calls w)
              (p_Name E pi) path false cfg) as [se|] eqn:Hsave;
    eexists _, _; unfold loadPlugin; rewrite Hopen;
    unfold_prims; cbn -[resolve_config]; rewrite Hget; cbn -[resolve_config];
    rewrite (resolve_config_record E pi db cfg) by done; cbn;
    rewrite lookup_new_info; cbn; rewrite Hen; cbn; rewrite Hinit; cbn;
    rewrite lookup_new_info; cbn;
    rewrite list_lookup_insert_eq by (rewrite length_app; cbn; lia); cbn;
    rewrite Hsave; cbn;
    (split; [reflexivity|]); cbn; (split; [reflexivity|]);
    (split; [by rewrite insert_new_info|]); (split; [reflexivity|]); tauto.
Qed.

Lemma loadPlugin_init_failure_witness :
  ∃ w' serr,
    loadPlugin
      (sample_env (Some (mkPluginStorageInfo "audit" "plugins/audit.so" true "{}"),
                   None) (Some "no upstream") (Some "disk full"))
      "plugins/audit.so" GetManager
      = Some (Some (ErrInitSkipped "audit"), w') ∧
    registry w' = registry GetManager ∧
    infos w' = infos GetManager
               ++ [mkPluginInfo "audit" "1.0" "request audit" "plugins/audit.so"
                     false (Some ∅) 7] ∧
    calls w' = [CallSavePlugin "audit" "plugins/audit.so" false (Some ∅) serr;
                CallInit 7 (Some "no upstream"); CallSetConfig 7 (Some ∅);
                CallGetPlugin "plugins/audit.so"
                  (Some (mkPluginStorageInfo "audit" "plugins/audit.so" true "{}"))
                  None] ∧
    In (LogInitFailed "audit" "no upstream") (logs w').
Proof.
  apply (loadPlugin_init_failure
           (sample_env (Some (mkPluginStorageInfo "audit" "plugins/audit.so" true "{}"),
                        None) (Some "no upstream") (Some "disk full"))
           GetManager "plugins/audit.so" 7
           (mkPluginStorageInfo "audit" "plugins/audit.so" true "{}") None
           (Some ∅) "no upstream"); try (vm_compute; reflexivity).
  right. split; [discriminate|vm_compute; reflexivity].
Defined.

(** X16: [loadPlugin] brings a module back in the state the storage holds
    for it.  With a record whose configuration resolves to [cfg], and whose
    [Init] succeeds if the record is enabled, the module is registered under
    its name with the record's enabled flag and [cfg]; [cfg] went to the
    instance through [SetConfig]; [Init] was called once if the record is
    enabled and not at all otherwise; [DefaultConfig] was not called; and a
    failure of the final [SavePlugin] is only logged. *)
Theorem loadPlugin_restores_state (E : Env) (w : World) (path : string)
    (pi : instance) (db : PluginStorageInfo) (gerr : option errmsg)
    (cfg : config) (reg : gmap string ptr) :
  plugin_Open E path = Symbol pi →
  st_GetPlugin (storage E) (calls w) path = (Some db, gerr) →
  config_of_record E db cfg →
  (db_Enabled db = true →
   p_Init E (CallSetConfig pi cfg :: CallGetPlugin path (Some db) gerr :: calls w)
     pi = None) →
  maps w !! m_plugins w = Some reg →
  ∃ w' new,
    loadPlugin E path w = Some (None, w') ∧
    registry w' = <[p_Name E pi := length (infos w)]> reg ∧
    infos w' = infos w ++ [info_of E pi path (db_Enabled db) cfg] ∧
    calls w' = new ++ calls w ∧
    last_SetConfig pi (calls w') = Some cfg ∧
    inits pi new = (if db_Enabled db then 1 else 0) ∧
    existsb is_DefaultConfig new = false ∧
    (∃ serr, head new
             = Some (CallSavePlugin (p_Name E pi) path (db_Enabled db) cfg serr)).
Proof.
  intros Hopen Hget Hcfg Hinit Hmap.
  pose proof (registry_after_assign w reg) as Hreg.
  destruct (db_Enabled db) eqn:Hen.
  - specialize (Hinit eq_refl).
    destruct (st_SavePlugin (storage E)
                (CallInit pi None :: CallSetConfig pi cfg
                   :: CallGetPlugin path (Some db) gerr :: calls w)
                (p_Name E pi) path true cfg) as [se|] eqn:Hsave;
      eexists _,
        [CallSavePlugin (p_Name E pi) path true cfg _; CallInit pi None;
         CallSetConfig pi cfg; CallGetPlugin path (Some db) gerr];
      unfold loadPlugin; rewrite Hopen;
      unfold_prims; cbn -[resolve_config]; rewrite Hget;
      cbn -[resolve_config];
      rewrite (resolve_config_record E pi db cfg) by done; cbn;
      rewrite lookup_new_info; cbn; rewrite Hen; cbn; rewrite Hinit; cbn;
      rewrite lookup_new_info; cbn; rewrite Hmap; cbn; rewrite Hsave; cbn;
      (split; [reflexivity|]); cbn;
      (split; [by apply Hreg|]); (split; [reflexivity|]);
      (split; [reflexivity|]); rewrite !decide_True by done; eauto 10.
  - destruct (st_SavePlugin (storage E)
                (CallSetConfig pi cfg
                   :: CallGetPlugin path (Some db) gerr :: calls w)
                (p_Name E pi) path false cfg) as [se|] eqn:Hsave;
      eexists _,
        [CallSavePlugin (p_Name E pi) path false cfg _;
         CallSetConfig pi cfg; CallGetPlugin path (Some db) gerr];
      unfold loadPlugin; rewrite Hopen;
      unfold_prims; cbn -[resolve_config]; rewrite Hget;
      cbn -[resolve_config];
      rewrite (resolve_config_record E pi db cfg) by done; cbn;
      rewrite lookup_new_info; cbn; rewrite Hen; cbn;
      rewrite lookup_new_info; cbn; rewrite Hmap; cbn; rewrite Hsave; cbn;
      (split; [reflexivity|]); cbn;
      (split; [by apply Hreg|]); (split; [reflexivity|]);
      (split; [reflexivity|]); rewrite !decide_True by done; eauto 10.
Qed.

Lemma loadPlugin_restores_state_witness :
  ∃ w' new,
    loadPlugin
      (sample_env (Some (mkPluginStorageInfo "audit" "plugins/audit.so" true "{}"),
                   None) None None)
      "plugins/audit.so" GetManager = Some (None, w') ∧
    registry w' = <[ "audit" := 0 ]> ∅ ∧
    infos w' = [mkPluginInfo "audit" "1.0" "request audit" "plugins/audit.so"
                  true (Some ∅) 7] ∧
    calls w' = new ++ [] ∧
    last_SetConfig 7 (calls w') = Some (Some ∅) ∧
    inits 7 new = 1 ∧
    existsb is_DefaultConfig new = false ∧
    (∃ serr, head new
             = Some (CallSavePlugin "audit" "plugins/audit.so" true (Some ∅) serr)).
Proof.
  apply (loadPlugin_restores_state
           (sample_env (Some (mkPluginStorageInfo "audit" "plugins/audit.so" true "{}"),
                        None) None None)
           GetManager "plugins/audit.so" 7
           (mkPluginStorageInfo "audit" "plugins/audit.so" true "{}") None
           (Some ∅) ∅); try (vm_compute; reflexivity).
  right. split; [discriminate|vm_compute; reflexivity].
Defined.

(** X17: with [DefaultStorage] the manager works without a back end: every
    module the loader can open is registered disabled with its
    [DefaultConfig()], nothing is reported as failed, and [EnablePlugin]
    then succeeds as soon as [Init] does. *)
Theorem DefaultStorage_load_and_enable (E : Env) (w : World) (path : string)
    (pi : instance) (reg : gmap string ptr) :
  storage E = DefaultStorage →
  plugin_Open E path = Symbol pi →
  maps w !! m_plugins w = Some reg →
  ∃ w',
    loadPlugin E path w = Some (None, w') ∧
    registry w' = <[p_Name E pi := length (infos w)]> reg ∧
    infos w' = infos w ++ [info_of E pi path false (p_DefaultConfig E pi)] ∧
    (p_Init E (calls w') pi = None →
     ∃ w'', EnablePlugin E (p_Name E pi) w' = Some (None, w'') ∧
            infos w'' = infos w ++ [info_of E pi path true (p_DefaultConfig E pi)]).
Proof.
  intros Hst Hopen Hmap.
  destruct (loadPlugin_nil_record E w path pi None reg Hopen) as
    (w' & serr & Hrun & Hreg & Hinfos & Hcalls); [by rewrite Hst|done|].
  exists w'. split; [exact Hrun|]. split; [exact Hreg|]. split; [exact Hinfos|].
  intros Hinit. unfold registry in Hreg.
  eexists. unfold EnablePlugin. unfold_prims. cbn.
  rewrite Hreg, lookup_insert_eq. cbn.
  rewrite Hinfos, lookup_new_info. cbn. rewrite Hinit. cbn.
  rewrite Hinfos, lookup_new_info. cbn. rewrite Hst. cbn.
  split; [reflexivity|]. cbn. by rewrite insert_new_info.
Qed.

Lemma DefaultStorage_load_and_enable_witness :
  ∃ w',
    loadPlugin (sample_env (None, None) None None) "plugins/audit.so" GetManager
      = Some (None, w') ∧
    registry w' = <[ "audit" := 0 ]> ∅ ∧
    infos w' = [sample_info false] ∧
    (p_Init (sample_env (None, None) None None) (calls w') 7 = None →
     ∃ w'', EnablePlugin (sample_env (None, None) None None) "audit" w'
              = Some (None, w'') ∧
            infos w'' = [sample_info true]).
Proof.
  apply (DefaultStorage_load_and_enable (sample_env (None, None) None None)
           GetManager "plugins/audit.so" 7 ∅); reflexivity.
Defined.

(** ** What no method does *)

Lemma same_identity_refl (i : PluginInfo) : same_identity i i.
Proof. by repeat split. Qed.

Lemma grows_refl (l : list PluginInfo) : grows l l.
Proof. intros p i Hi. exists i. split; [done|apply same_identity_refl]. Qed.

Lemma grows_trans (l1 l2 l3 : list PluginInfo) :
  grows l1 l2 → grows l2 l3 → grows l1 l3.
Proof.
  intros H12 H23 p i Hi.
  destruct (H12 p i Hi) as (i2 & Hi2 & (? & ? & ? & ? & ?)).
  destruct (H23 p i2 Hi2) as (i3 & Hi3 & (? & ? & ? & ? & ?)).
  exists i3. split; [done|]. repeat split; congruence.
Qed.

Lemma grows_app (l : list PluginInfo) (x : PluginInfo) : grows l (l ++ [x]).
Proof.
  intros p i Hi. exists i. split; [|apply same_identity_refl].
  by apply lookup_app_l_Some.
Qed.

Lemma grows_insert (l : list PluginInfo) (p : ptr) (i x : PluginInfo) :
  l !! p = Some i → same_identity i x → grows l (<[p := x]> l).
Proof.
  intros Hi Hsame q j Hj. destruct (decide (q = p)) as [->|Hne].
  - exists x. rewrite list_lookup_insert_eq by (by eapply lookup_lt_Some).
    split; [done|].
    pose proof (eq_trans (eq_sym Hi) Hj) as Heq. by injection Heq as ->.
  - exists j. rewrite list_lookup_insert_ne by done.
    split; [done|apply same_identity_refl].
Qed.

Lemma evolves_refl (w : World) : evolves w w.
Proof. split; [done|done|done|apply grows_refl|by intros r m]. Qed.

Lemma evolves_trans (w1 w2 w3 : World) :
  evolves w1 w2 → evolves w2 w3 → evolves w1 w3.
Proof.
  intros [Hc1 Hl1 Hd1 Hi1 Hm1] [Hc2 Hl2 Hd2 Hi2 Hm2]. split.
  - by etrans.
  - by etrans.
  - congruence.
  - by eapply grows_trans.
  - intros r m Hr Hne. destruct (Hm1 r m Hr Hne) as [Hr2 Hne2].
    by apply Hm2.
Qed.

Ltac solve_suffix := repeat apply suffix_cons_r; reflexivity.

Ltac solve_grows :=
  rewrite ?insert_new_info, ?list_insert_insert_eq;
  lazymatch goal with
  | |- grows ?l ?l => apply grows_refl
  | |- grows ?l (?l ++ [_]) => apply grows_app
  | |- grows ?l (<[_ := _]> ?l) =>
      eapply grows_insert; [eassumption|by repeat split]
  end.

Ltac solve_frozen :=
  let r := fresh "r" in
  let m := fresh "m" in
  let Hr := fresh "Hr" in
  let Hne := fresh "Hne" in
  intros r m Hr Hne; cbn [infos maps m_plugins m_pluginDir calls logs];
  split;
  [ first [ exact Hr
          | by rewrite list_lookup_insert_ne
          | by apply lookup_app_l_Some ]
  | first [ exact Hne
          | apply lookup_lt_Some in Hr; lia ] ].

Ltac solve_evolves :=
  split; cbn [infos maps m_plugins m_pluginDir calls logs];
  [solve_suffix|solve_suffix|reflexivity|solve_grows|solve_frozen].

Ltac leaf := let H := fresh in intros H; cbv [ret] in H; simplify_eq.

(** Running a method branch by branch, panics included. *)
Ltac run_all :=
  repeat (cbn;
    first
    [ rewrite lookup_new_info
    | rewrite list_lookup_insert_eq
        by (rewrite ?length_app, ?length_insert;
            first [cbn; lia | eapply lookup_lt_Some; eassumption])
    | match goal with
      | H : ?x = _ |- context [match ?x with _ => _ end] => rewrite H
      | |- context [match ?x with _ => _ end] =>
          lazymatch x with
          | context [match _ with _ => _ end] => fail
          | _ => destruct x eqn:?
          end
      end ]).

Lemma EnablePlugin_evolves (E : Env) (name : string) (w : World)
    (r : option error) (w' : World) :
  EnablePlugin E name w = Some (r, w') →
  evolves w w' ∧ registry w' = registry w.
Proof.
  unfold EnablePlugin. unfold_prims. run_all; leaf; (split; [solve_evolves|done]).
Qed.

Lemma DisablePlugin_evolves (E : Env) (name : string) (w : World)
    (r : option error) (w' : World) :
  DisablePlugin E name w = Some (r, w') →
  evolves w w' ∧ registry w' = registry w.
Proof.
  unfold DisablePlugin. unfold_prims.
  run_all; leaf; (split; [solve_evolves|done]).
Qed.

Lemma UpdatePluginConfig_evolves (E : Env) (name : string) (cfg : config)
    (w : World) (r : option error) (w' : World) :
  UpdatePluginConfig E name cfg w = Some (r, w') →
  evolves w w' ∧ registry w' = registry w.
Proof.
  unfold UpdatePluginConfig. unfold_prims.
  run_all; leaf; (split; [solve_evolves|done]).
Qed.

Lemma loadPlugin_effect (E : Env) (path : string) (w : World)
    (r : option error) (w' : World) :
  loadPlugin E path w = Some (r, w') →
  evolves w w' ∧
  (∀ p i, infos w !! p = Some i → infos w' !! p = Some i) ∧
  (∀ pi, closes pi (calls w') = closes pi (calls w)) ∧
  match r with
  | None =>
      ∃ pi i,
        plugin_Open E path = Symbol pi ∧
        infos w' = infos w ++ [i] ∧
        Name i = p_Name E pi ∧ FilePath i = path ∧ Plugin i = pi ∧
        registry w' = <[p_Name E pi := length (infos w)]> (registry w)
  | Some _ => registry w' = registry w
  end.
Proof.
  unfold loadPlugin, resolve_config. unfold_prims.
  destruct (plugin_Open E path) as [e|e| |pi] eqn:Hopen; cbn;
    [leaf; (split; [solve_evolves|done])..|].
  destruct (st_GetPlugin (storage E) (calls w) path) as [db gerr] eqn:Hget.
  run_all; leaf.
  all: split; [solve_evolves|].
  all: split;
    [intros q j Hq; cbn; rewrite ?insert_new_info; try done;
     by apply lookup_app_l_Some|].
  all: split; [done|].
  all: try done.
  all: eexists _, _; (split; [reflexivity|]); cbn;
    rewrite ?insert_new_info; (do 4 (split; [reflexivity|]));
    match goal with
    | H : maps ?w0 !! m_plugins ?w0 = Some ?g |- _ =>
        rewrite (registry_after_assign w0 g) by exact H;
        unfold registry; by rewrite H
    end.
Qed.

Lemma bind_Some {A B} (c : M A) (k : A → M B) (w : World) (b : B)
    (w' : World) :
  bind c k w = Some (b, w') →
  ∃ a w1, c w = Some (a, w1) ∧ k a w1 = Some (b, w').
Proof.
  unfold bind. destruct (c w) as [[a w1]|]; [|done]. intros Hk. by exists a, w1.
Qed.

Lemma for_range_evolves {A} (body : A → M unit) (l : list A) :
  (∀ x w u w', body x w = Some (u, w') → evolves w w') →
  ∀ w u w', for_range body l w = Some (u, w') → evolves w w'.
Proof.
  intros Hbody. induction l as [|x l IH]; intros w u w'; cbn [for_range].
  - leaf. apply evolves_refl.
  - intros (u1 & w1 & H1 & H2)%bind_Some.
    eapply evolves_trans; [by eapply Hbody|by eapply IH].
Qed.

Lemma TriggerEvent_evolves (E : Env) (ctx : nat) (event : EventType)
    (path : string) (statusCode : Z) (requestBody responseBody : any)
    (w : World) (u : unit) (w' : World) :
  TriggerEvent E ctx event path statusCode requestBody responseBody w
    = Some (u, w') →
  evolves w w'.
Proof.
  unfold TriggerEvent, get_plugins, map_range.
  unfold bind at 1. unfold bind at 1. apply for_range_evolves.
  clear. intros kv w u w'. unfold TriggerEvent_body. unfold_prims.
  run_all; leaf; solve_evolves.
Qed.

Lemma Shutdown_evolves (E : Env) (w : World) (u : unit) (w' : World) :
  Shutdown E w = Some (u, w') → evolves w w' ∧ registry w' = ∅.
Proof.
  unfold Shutdown, get_plugins, map_range.
  unfold bind at 1. unfold bind at 1.
  intros ([] & w1 & Hloop & Htail)%bind_Some.
  revert Htail. unfold_prims. cbn. leaf.
  split; [|apply registry_new_map].
  eapply evolves_trans.
  - eapply for_range_evolves; [|exact Hloop].
    clear. intros kv w u w'. unfold_prims. run_all; leaf; solve_evolves.
  - solve_evolves.
Qed.

Lemma walkFn_evolves (E : Env) (path : string) (err : option errmsg)
    (w : World) (r : option error) (w' : World) :
  walkFn E path err w = Some (r, w') → evolves w w'.
Proof.
  unfold walkFn. destruct err; [leaf; apply evolves_refl|].
  intros ([] & w1 & H1 & Hret)%bind_Some. unfold ret in Hret. simplify_eq.
  revert H1.
  destruct (HasSuffix path ".so"); [|leaf; apply evolves_refl].
  intros (le & w2 & Hload & Hlog)%bind_Some.
  apply loadPlugin_effect in Hload as [Hev _].
  eapply evolves_trans; [exact Hev|].
  destruct le; revert Hlog; unfold_prims; leaf; solve_evolves.
Qed.

Lemma Walk_evolves (E : Env) (entries : list (string * option errmsg)) :
  ∀ w r w', Walk E entries w = Some (r, w') → evolves w w'.
Proof.
  induction entries as [|[path err] entries IH]; intros w r w'; cbn [Walk].
  - leaf. apply evolves_refl.
  - intros ([e|] & w1 & H1 & H2)%bind_Some.
    + unfold ret in H2. simplify_eq. by eapply walkFn_evolves.
    + eapply evolves_trans; [by eapply walkFn_evolves|by eapply IH].
Qed.

Lemma LoadPlugins_evolves (E : Env) (w : World) (r : option error)
    (w' : World) :
  LoadPlugins E w = Some (r, w') → evolves w w'.
Proof.
  unfold LoadPlugins, get_pluginDir. unfold bind at 1.
  destruct (os_Stat_IsNotExist E (m_pluginDir w)); [|apply Walk_evolves].
  destruct (os_MkdirAll E (m_pluginDir w)); unfold_prims; leaf; solve_evolves.
Qed.

Lemma serve_evolves (E : Env) (req : Request) (w : World) (u : unit)
    (w' : World) :
  serve E req w = Some (u, w') → evolves w w'.
Proof.
  destruct req; cbn [serve];
    [intros (a & w1 & Hrun & Hret)%bind_Some; cbv [ret] in Hret;
     simplify_eq; revert Hrun ..| |].
  - apply LoadPlugins_evolves.
  - intros Hrun. by apply loadPlugin_effect in Hrun as [? _].
  - unfold GetPlugin. unfold_prims. leaf. apply evolves_refl.
  - rewrite GetAllPlugins_run. leaf. solve_evolves.
  - intros Hrun. by apply EnablePlugin_evolves in Hrun as [? _].
  - intros Hrun. by apply DisablePlugin_evolves in Hrun as [? _].
  - intros Hrun. by apply UpdatePluginConfig_evolves in Hrun as [? _].
  - apply TriggerEvent_evolves.
  - intros Hrun. by apply Shutdown_evolves in Hrun as [? _].
Qed.


Lemma Inv_sample_world : Inv (sample_world false).
Proof.
  split; cbn.
  - lia.
  - intros k p. unfold registry. cbn.
    intros [_ <-]%lookup_singleton_Some. lia.
  - repeat constructor. intros [=].
Qed.


(** X18: [loadPlugin] either returns an error and leaves the registry as it
    was, or allocates one record for the instance and binds the instance's
    name to it: a record registered before under that name is replaced in
    the registry (a lookup of the name now finds the new one), every other
    name keeps its record.  Either way no existing record is written and no
    instance is closed. *)
Theorem loadPlugin_replaces_by_name (E : Env) (w : World) (path : string) :
  Inv w →
  ∃ r w',
    loadPlugin E path w = Some (r, w') ∧
    (∀ p i, infos w !! p = Some i → infos w' !! p = Some i) ∧
    (∀ pi, closes pi (calls w') = closes pi (calls w)) ∧
    match r with
    | None =>
        ∃ pi i,
          plugin_Open E path = Symbol pi ∧
          infos w' = infos w ++ [i] ∧
          Name i = p_Name E pi ∧ FilePath i = path ∧ Plugin i = pi ∧
          registry w' = <[p_Name E pi := length (infos w)]> (registry w) ∧
          GetPlugin (p_Name E pi) w' = Some (Some (length (infos w)), w')
    | Some _ => registry w' = registry w
    end.
Proof.
  intros Hw. destruct (keeps_loadPlugin E path w Hw) as (r & w' & Hrun & _).
  exists r, w'. split; [exact Hrun|].
  apply loadPlugin_effect in Hrun as (_ & Hold & Hclose & Hreg).
  split; [exact Hold|]. split; [exact Hclose|].
  destruct r as [e|]; [exact Hreg|].
  destruct Hreg as (pi & i & Hopen & Hinfos & Hname & Hpath & Hpi & Hreg).
  exists pi, i. do 6 (split; [done|]).
  unfold GetPlugin, get_plugins, map_index, bind. fold (registry w').
  by rewrite Hreg, lookup_insert_eq.
Qed.

Lemma loadPlugin_replaces_by_name_witness :
  ∃ r w',
    loadPlugin (sample_env (None, None) None None) "plugins/audit.so"
      (sample_world false) = Some (r, w') ∧
    (∀ p i, infos (sample_world false) !! p = Some i → infos w' !! p = Some i) ∧
    (∀ pi, closes pi (calls w') = closes pi (calls (sample_world false))) ∧
    match r with
    | None =>
        ∃ pi i,
          plugin_Open (sample_env (None, None) None None) "plugins/audit.so"
            = Symbol pi ∧
          infos w' = infos (sample_world false) ++ [i] ∧
          Name i = p_Name (sample_env (None, None) None None) pi ∧
          FilePath i = "plugins/audit.so" ∧ Plugin i = pi ∧
          registry w'
          = <[p_Name (sample_env (None, None) None None) pi
              := length (infos (sample_world false))]>
              (registry (sample_world false)) ∧
          GetPlugin (p_Name (sample_env (None, None) None None) pi) w'
          = Some (Some (length (infos (sample_world false))), w')
    | Some _ => registry w' = registry (sample_world false)
    end.
Proof.
  apply (loadPlugin_replaces_by_name (sample_env (None, None) None None)
           (sample_world false) "plugins/audit.so").
  apply Inv_sample_world.
Defined.

(** ** The keys of the registry *)

Lemma named_step (w w' : World) :
  Inv w → named w → evolves w w' → registry_effect w w' → named w'.
Proof.
  intros [Hm Hp Hb] Hnamed [_ _ _ Hgrow _] Heffect k p i' Hk Hi'.
  destruct Heffect as [Hsame|[Hempty|(i0 & Hinfos & Hreg)]].
  - rewrite Hsame in Hk.
    assert (is_Some (infos w !! p)) as [i Hi]
      by (apply lookup_lt_is_Some_2; by eapply Hp).
    destruct (Hgrow p i Hi) as (i'' & Hi'' & Hname & _).
    pose proof (eq_trans (eq_sym Hi') Hi'') as Heq. injection Heq as ->.
    rewrite Hname. by eapply Hnamed.
  - by rewrite Hempty, lookup_empty in Hk.
  - rewrite Hreg in Hk. rewrite Hinfos in Hi'.
    apply lookup_insert_Some in Hk as [[<- <-]|[Hne Hk]].
    + rewrite lookup_new_info in Hi'. by injection Hi' as <-.
    + rewrite lookup_app_l in Hi' by (by eapply Hp). by eapply Hnamed.
Qed.

Lemma keeps_named_of_effect {A} (c : M A) :
  keeps c →
  (∀ w a w', Inv w → c w = Some (a, w') →
     evolves w w' ∧ registry_effect w w') →
  keeps_named c.
Proof.
  intros Hkeeps Heffect w Hw Hnamed.
  destruct (Hkeeps w Hw) as (a & w' & Hrun & Hw').
  exists a, w'. split; [exact Hrun|]. split; [exact Hw'|].
  destruct (Heffect w a w' Hw Hrun). by apply (named_step w w').
Qed.

Lemma keeps_named_ret {A} (a : A) : keeps_named (ret a).
Proof. intros w Hw Hn. by exists a, w. Qed.

Lemma keeps_named_bind {A B} (c : M A) (k : A → M B) :
  keeps_named c → (∀ a, keeps_named (k a)) → keeps_named (bind c k).
Proof.
  intros Hc Hk w Hw Hn. destruct (Hc w Hw Hn) as (a & w1 & Hrun & Hw1 & Hn1).
  unfold bind. rewrite Hrun. by apply Hk.
Qed.

Lemma keeps_named_for_range {A} (body : A → M unit) (l : list A) :
  (∀ x, keeps_named (body x)) → keeps_named (for_range body l).
Proof.
  intros Hbody. induction l as [|x l IH]; [apply keeps_named_ret|].
  cbn. apply keeps_named_bind; [apply Hbody|done].
Qed.

Lemma keeps_named_log (l : LogLine) : keeps_named (log_Printf l).
Proof.
  apply keeps_named_of_effect; [apply keeps_log|].
  intros w a w' _. unfold log_Printf. leaf. split; [solve_evolves|by left].
Qed.

Lemma keeps_named_loadPlugin (E : Env) (path : string) :
  keeps_named (loadPlugin E path).
Proof.
  apply keeps_named_of_effect; [apply keeps_loadPlugin|].
  intros w r w' _ (Hev & _ & _ & Hreg)%loadPlugin_effect. split; [exact Hev|].
  destruct r as [e|]; [by left|]. right. right.
  destruct Hreg as (pi & i & _ & Hinfos & Hname & _ & _ & Hreg).
  exists i. by rewrite Hname.
Qed.

Lemma keeps_named_walkFn (E : Env) (path : string) (err : option errmsg) :
  keeps_named (walkFn E path err).
Proof.
  unfold walkFn. destruct err; [apply keeps_named_ret|].
  apply keeps_named_bind; [|intros; apply keeps_named_ret].
  destruct (HasSuffix path ".so"); [|apply keeps_named_ret].
  apply keeps_named_bind; [apply keeps_named_loadPlugin|].
  intros [le|]; [apply keeps_named_log|apply keeps_named_ret].
Qed.

Lemma keeps_named_Walk (E : Env) (entries : list (string * option errmsg)) :
  keeps_named (Walk E entries).
Proof.
  induction entries as [|[path err] entries IH]; [apply keeps_named_ret|].
  cbn. apply keeps_named_bind; [apply keeps_named_walkFn|].
  intros [e|]; [apply keeps_named_ret|apply IH].
Qed.

Lemma keeps_named_LoadPlugins (E : Env) : keeps_named (LoadPlugins E).
Proof.
  unfold LoadPlugins. apply keeps_named_bind.
  - intros w Hw Hn. by eexists _, _.
  - intros dir. destruct (os_Stat_IsNotExist E dir); [|apply keeps_named_Walk].
    destruct (os_MkdirAll E dir); [apply keeps_named_ret|].
    apply keeps_named_bind; [apply keeps_named_log|intros; apply keeps_named_ret].
Qed.

Lemma keeps_named_serve (E : Env) (req : Request) : keeps_named (serve E req).
Proof.
  destruct req; cbn [serve];
    [apply keeps_named_bind; [|intros; apply keeps_named_ret] ..| |].
  - apply keeps_named_LoadPlugins.
  - apply keeps_named_loadPlugin.
  - intros w Hw Hn. by eexists _, _.
  - apply keeps_named_of_effect; [apply keeps_GetAllPlugins|].
    intros w a w' [Hm _ _]. rewrite GetAllPlugins_run. leaf.
    split; [solve_evolves|]. left. unfold registry. cbn.
    by rewrite lookup_app_l.
  - apply keeps_named_of_effect; [apply keeps_EnablePlugin|].
    intros w a w' _ [Hev Hreg]%EnablePlugin_evolves. split; [done|by left].
  - apply keeps_named_of_effect; [apply keeps_DisablePlugin|].
    intros w a w' _ [Hev Hreg]%DisablePlugin_evolves. split; [done|by left].
  - apply keeps_named_of_effect; [apply keeps_UpdatePluginConfig|].
    intros w a w' _ [Hev Hreg]%UpdatePluginConfig_evolves. split; [done|by left].
  - apply keeps_named_of_effect; [apply keeps_TriggerEvent|].
    intros w a w' _ Hrun. split; [by eapply TriggerEvent_evolves|].
    left. revert Hrun. unfold TriggerEvent, get_plugins, map_range.
    unfold bind at 1. unfold bind at 1.
    generalize (map_to_list (default ∅ (maps w !! m_plugins w))).
    intros l. revert w. induction l as [|kv l IH]; intros w; cbn [for_range].
    + by leaf.
    + intros (u & w1 & Hbody & Hrest)%bind_Some.
      rewrite (IH _ Hrest). revert Hbody. unfold TriggerEvent_body.
      unfold_prims. run_all; by leaf.
  - apply keeps_named_of_effect; [apply keeps_Shutdown|].
    intros w a w' _ [Hev Hreg]%Shutdown_evolves. split; [done|]. right. by left.
Qed.

(** X20: the registry is keyed by name.  After any calls served by a
    manager built by [GetManager], every key leads to a record (no dangling
    pointer) whose [Name] is that key, so no record is registered under two
    names. *)
Theorem registry_keyed_by_name (E : Env) (reqs : list Request) :
  ∃ w,
    serve_all E reqs GetManager = Some (tt, w) ∧
    (∀ k p, registry w !! k = Some p →
       ∃ i, infos w !! p = Some i ∧ Name i = k) ∧
    (∀ k1 k2 p, registry w !! k1 = Some p → registry w !! k2 = Some p →
       k1 = k2).
Proof.
  destruct (keeps_named_for_range (serve E) reqs (keeps_named_serve E)
              GetManager Inv_GetManager)
    as ([] & w & Hrun & [Hm Hp Hb] & Hnamed).
  { intros k p i. unfold registry. cbn. by rewrite lookup_empty. }
  assert (Hkey : ∀ k p, registry w !! k = Some p →
                   ∃ i, infos w !! p = Some i ∧ Name i = k).
  { intros k p Hk.
    assert (is_Some (infos w !! p)) as [i Hi]
      by (apply lookup_lt_is_Some_2; by eapply Hp).
    exists i. split; [done|]. by eapply Hnamed. }
  exists w. split; [exact Hrun|]. split; [exact Hkey|].
  intros k1 k2 p Hk1 Hk2.
  destruct (Hkey k1 p Hk1) as (i1 & Hi1 & <-).
  destruct (Hkey k2 p Hk2) as (i2 & Hi2 & <-).
  pose proof (eq_trans (eq_sym Hi1) Hi2) as Heq. by injection Heq as ->.
Qed.

Lemma registry_keyed_by_name_witness :
  ∃ w,
    serve_all (sample_env (None, None) None None)
      [ReqLoadPlugins; ReqEnablePlugin "audit"; ReqLoadPlugins] GetManager
      = Some (tt, w) ∧
    (∀ k p, registry w !! k = Some p →
       ∃ i, infos w !! p = Some i ∧ Name i = k) ∧
    (∀ k1 k2 p, registry w !! k1 = Some p → registry w !! k2 = Some p →
       k1 = k2).
Proof.
  apply (registry_keyed_by_name (sample_env (None, None) None None)
           [ReqLoadPlugins; ReqEnablePlugin "audit"; ReqLoadPlugins]).
Defined.

(** X21: the map [GetAllPlugins] returned is a snapshot.  Whatever the
    manager serves afterwards (loads, enabling, shutdown, further
    [GetAllPlugins] calls), the returned map keeps exactly the entries the
    registry had when it was taken. *)
Theorem GetAllPlugins_snapshot (E : Env) (w : World) (reqs : list Request) :
  Inv w →
  ∃ r w1 w2,
    GetAllPlugins w = Some (r, w1) ∧
    serve_all E reqs w1 = Some (tt, w2) ∧
    maps w1 !! r = Some (registry w) ∧
    maps w2 !! r = Some (registry w).
Proof.
  intros Hw. pose proof Hw as [Hm _ _].
  destruct (keeps_GetAllPlugins w Hw) as (r & w1 & Hget & Hw1).
  destruct (keeps_for_range (serve E) reqs (keeps_serve E) w1 Hw1)
    as ([] & w2 & Hrun & _).
  exists r, w1, w2. split; [exact Hget|]. split; [exact Hrun|].
  pose proof (for_range_evolves (serve E) reqs (serve_evolves E) _ _ _ Hrun)
    as [_ _ _ _ Hfrozen].
  rewrite GetAllPlugins_run in Hget. injection Hget as <- <-.
  assert (Hr : maps {| infos := infos w; maps := maps w ++ [registry w];
                       m_plugins := m_plugins w;
                       m_pluginDir := m_pluginDir w; calls := calls w;
                       logs := logs w |} !! length (maps w)
               = Some (registry w))
    by (cbn; by rewrite lookup_app_r, Nat.sub_diag).
  split; [exact Hr|]. apply (Hfrozen _ _ Hr). cbn. lia.
Qed.

Lemma GetAllPlugins_snapshot_witness :
  ∃ r w1 w2,
    GetAllPlugins (sample_world false) = Some (r, w1) ∧
    serve_all (sample_env (None, None) None None)
      [ReqEnablePlugin "audit"; ReqShutdown; ReqLoadPlugins] w1
      = Some (tt, w2) ∧
    maps w1 !! r = Some (registry (sample_world false)) ∧
    maps w2 !! r = Some (registry (sample_world false)).
Proof.
  apply (GetAllPlugins_snapshot (sample_env (None, None) None None)
           (sample_world false)
           [ReqEnablePlugin "audit"; ReqShutdown; ReqLoadPlugins]).
  apply Inv_sample_world.
Defined.

(** X22: after [Shutdown] no plugin gets an event and no name is found:
    [TriggerEvent] starts no handler (it makes no call and writes no log),
    and [GetPlugin] finds nothing, until plugins are loaded again. *)
Theorem nothing_after_Shutdown (E : Env) (w : World) (ctx : nat)
    (event : EventType) (path : string) (statusCode : Z)
    (requestBody responseBody : any) (name : string) :
  (∀ k p, registry w !! k = Some p → is_Some (infos w !! p)) →
  ∃ w1,
    Shutdown E w = Some (tt, w1) ∧
    TriggerEvent E ctx event path statusCode requestBody responseBody w1
      = Some (tt, w1) ∧
    GetPlugin name w1 = Some (None, w1).
Proof.
  intros Hvalid.
  destruct (Shutdown_run E w Hvalid) as (new & lg & Hrun & _).
  eexists. split; [exact Hrun|].
  unfold TriggerEvent, GetPlugin, get_plugins, map_range, map_index, bind.
  cbn. rewrite lookup_app_r, Nat.sub_diag by done. cbn.
  by rewrite map_to_list_empty.
Qed.

Lemma nothing_after_Shutdown_witness :
  ∃ w1,
    Shutdown (sample_env (None, None) None None) (sample_world true)
      = Some (tt, w1) ∧
    TriggerEvent (sample_env (None, None) None None) 1 EventAPIBefore
      "/v1/users/42" 200 AnyNil AnyNil w1 = Some (tt, w1) ∧
    GetPlugin "audit" w1 = Some (None, w1).
Proof.
  apply (nothing_after_Shutdown (sample_env (None, None) None None)
           (sample_world true) 1 EventAPIBefore "/v1/users/42" 200 AnyNil
           AnyNil "audit").
  intros k p. unfold registry. cbn.
  intros [_ <-]%lookup_singleton_Some. by eexists.
Defined.
